(** * Address book assistant (Home_work_DS_2.py): model and verified properties

    The Python program keeps contacts (a name, a list of phone numbers and an
    optional birthday) in an [AddressBook] (a [UserDict]) and drives it from
    command handlers wrapped by the [input_error] decorator.

    The file first models the pieces of the Python runtime the program relies
    on (text as sequences of code points, [str.isdigit], the proleptic
    Gregorian calendar of [datetime.date], the [strptime] pattern
    [%d.%m.%Y]), then the classes and handlers of the program, and finally
    states and proves the properties. *)

From Stdlib Require Import ZArith NArith List String Ascii Bool Lia.
From Stdlib Require Import DecimalString Decimal.
From stdpp Require Import base tactics option list relations.
Import ListNotations.

Local Open Scope Z_scope.

(** ** Text *)

(** A Python [str] is a sequence of Unicode code points. *)
Definition pystr := list N.

(** The text of an ASCII literal of the source. *)
Fixpoint lit (s : string) : pystr :=
  match s with
  | EmptyString => []
  | String c s' => N_of_ascii c :: lit s'
  end.

Definition pystr_eqb (a b : pystr) : bool := bool_decide (a = b).

(** [str(n)] for a non-negative machine-independent integer. *)
Definition str_of_nat (n : nat) : pystr :=
  lit (NilEmpty.string_of_uint (Nat.to_uint n)).

Definition str_of_Z (z : Z) : pystr :=
  lit (NilEmpty.string_of_int (Z.to_int z)).

(** ** Exceptions and results *)

Inductive exn : Type :=
  | ValueError (msg : pystr)
  | IndexError
  | KeyError
  | OverflowError (msg : pystr).

Inductive res (A : Type) : Type :=
  | Ok (a : A)
  | Raise (e : exn).
Arguments Ok {A} a.
Arguments Raise {A} e.

Definition rbind {A B} (r : res A) (k : A -> res B) : res B :=
  match r with
  | Ok a => k a
  | Raise e => Raise e
  end.

Notation "'let*' x ':=' r 'in' k" := (rbind r (fun x => k))
  (at level 10, x name, r at level 100, k at level 200).

(** ** Unicode character classes used by [str.isdigit], [\d] and [int] *)

Module Unicode.

(** First code point of every run "digit zero .. digit nine" of general
    category Nd (Unicode 14.0.0, the database of CPython 3.11), with the
    number of consecutive runs starting there. *)
Definition Nd_runs : list (N * N) :=
  [ (48, 1); (1632, 1); (1776, 1); (1984, 1); (2406, 1); (2534, 1);
    (2662, 1); (2790, 1); (2918, 1); (3046, 1); (3174, 1); (3302, 1);
    (3430, 1); (3558, 1); (3664, 1); (3792, 1); (3872, 1); (4160, 1);
    (4240, 1); (6112, 1); (6160, 1); (6470, 1); (6608, 1); (6784, 1);
    (6800, 1); (6992, 1); (7088, 1); (7232, 1); (7248, 1); (42528, 1);
    (43216, 1); (43264, 1); (43472, 1); (43504, 1); (43600, 1);
    (44016, 1); (65296, 1); (66720, 1); (68912, 1); (69734, 1);
    (69872, 1); (69942, 1); (70096, 1); (70384, 1); (70736, 1);
    (70864, 1); (71248, 1); (71360, 1); (71472, 1); (71904, 1);
    (72016, 1); (72784, 1); (73040, 1); (73120, 1); (92768, 1);
    (92864, 1); (93008, 1); (120782, 5); (123200, 1); (123632, 1);
    (125264, 1); (130032, 1) ]%N.

(** Code points that are digits without being decimal (Numeric_Type=Digit:
    superscripts, subscripts, circled digits and the like), as inclusive
    ranges. *)
Definition other_digit_ranges : list (N * N) :=
  [ (178, 179); (185, 185); (4969, 4977); (6618, 6618); (8304, 8304);
    (8308, 8313); (8320, 8329); (9312, 9320); (9332, 9340); (9352, 9360);
    (9450, 9450); (9461, 9469); (9471, 9471); (10102, 10110);
    (10112, 10120); (10122, 10130); (68160, 68163); (69216, 69224);
    (69714, 69722); (127232, 127242) ]%N.

(** [Py_UNICODE_TODECIMAL]: the decimal value of a code point of
    category Nd. *)
Fixpoint decimal_in (runs : list (N * N)) (c : N) : option Z :=
  match runs with
  | [] => None
  | (start, k) :: rest =>
      if ((start <=? c) && (c <? start + 10 * k))%N
      then Some (Z.of_N ((c - start) mod 10))
      else decimal_in rest c
  end.

Definition decimal (c : N) : option Z := decimal_in Nd_runs c.

(** [str.isdecimal] on one character; also the class [\d] of [re] on
    text patterns. *)
Definition isdecimal (c : N) : bool :=
  match decimal c with Some _ => true | None => false end.

Definition in_ranges (rs : list (N * N)) (c : N) : bool :=
  existsb (fun r => (fst r <=? c) && (c <=? snd r))%N rs.

(** [str.isdigit] on one character. *)
Definition isdigit (c : N) : bool :=
  isdecimal c || in_ranges other_digit_ranges c.

(** A character range [[lo-hi]] of a regular expression. *)
Definition in_class (lo hi : ascii) (c : N) : bool :=
  ((N_of_ascii lo <=? c) && (c <=? N_of_ascii hi))%N.

End Unicode.

(** [str.isdigit]: true when the text is not empty and all its characters
    are digits. *)
Definition str_isdigit (s : pystr) : bool :=
  match s with
  | [] => false
  | _ => forallb Unicode.isdigit s
  end.

(** ** The calendar of [datetime.date] *)

Module Datetime.

Record date : Type := mkdate { year : Z; month : Z; day : Z }.

Definition MINYEAR : Z := 1.
Definition MAXYEAR : Z := 9999.
Definition MAXORDINAL : Z := 3652059.

Definition is_leap (y : Z) : bool :=
  (y mod 4 =? 0) && (negb (y mod 100 =? 0) || (y mod 400 =? 0)).

Definition days_before_year (y : Z) : Z :=
  let y := y - 1 in y * 365 + y / 4 - y / 100 + y / 400.

Definition DAYS_IN_MONTH (m : Z) : Z :=
  match m with
  | 1 => 31 | 2 => 28 | 3 => 31 | 4 => 30 | 5 => 31 | 6 => 30
  | 7 => 31 | 8 => 31 | 9 => 30 | 10 => 31 | 11 => 30 | 12 => 31
  | _ => -1
  end.

Definition DAYS_BEFORE_MONTH (m : Z) : Z :=
  match m with
  | 1 => 0 | 2 => 31 | 3 => 59 | 4 => 90 | 5 => 120 | 6 => 151
  | 7 => 181 | 8 => 212 | 9 => 243 | 10 => 273 | 11 => 304 | 12 => 334
  | _ => -1
  end.

Definition days_in_month (y m : Z) : Z :=
  if (m =? 2) && is_leap y then 29 else DAYS_IN_MONTH m.

Definition days_before_month (y m : Z) : Z :=
  DAYS_BEFORE_MONTH m + (if (2 <? m) && is_leap y then 1 else 0).

Definition ymd2ord (y m d : Z) : Z :=
  days_before_year y + days_before_month y m + d.

Definition DI400Y : Z := 146097.
Definition DI100Y : Z := 36524.
Definition DI4Y : Z := 1461.

(** Month and day of the [n]-th day (counted from 0) of a year. *)
Definition month_day (leapyear : bool) (n : Z) : Z * Z :=
  let month := Z.shiftr (n + 50) 5 in
  let preceding :=
    DAYS_BEFORE_MONTH month + (if (2 <? month) && leapyear then 1 else 0) in
  if n <? preceding
  then
    let month' := month - 1 in
    let preceding' :=
      preceding
      - (DAYS_IN_MONTH month' + (if (month' =? 2) && leapyear then 1 else 0)) in
    (month', n - preceding' + 1)
  else (month, n - preceding + 1).

Definition ord2ymd (n : Z) : date :=
  let n := n - 1 in
  let n400 := n / DI400Y in
  let n := n mod DI400Y in
  let y := n400 * 400 + 1 in
  let n100 := n / DI100Y in
  let n := n mod DI100Y in
  let n4 := n / DI4Y in
  let n := n mod DI4Y in
  let n1 := n / 365 in
  let n := n mod 365 in
  let y := y + n100 * 100 + n4 * 4 + n1 in
  if (n1 =? 4) || (n100 =? 4)
  then mkdate (y - 1) 12 31
  else
    let leapyear := (n1 =? 3) && (negb (n4 =? 24) || (n100 =? 3)) in
    let '(m, d) := month_day leapyear n in
    mkdate y m d.

(** [date(year, month, day)]: the constructor checks its fields. *)
Definition date_new (y m d : Z) : res date :=
  if negb ((MINYEAR <=? y) && (y <=? MAXYEAR))
  then Raise (ValueError (lit "year " ++ str_of_Z y ++ lit " is out of range"))
  else if negb ((1 <=? m) && (m <=? 12))
  then Raise (ValueError (lit "month must be in 1..12"))
  else if negb ((1 <=? d) && (d <=? days_in_month y m))
  then Raise (ValueError (lit "day is out of range for month"))
  else Ok (mkdate y m d).

Definition toordinal (d : date) : Z := ymd2ord (year d) (month d) (day d).

(** [date.weekday()]: Monday is 0, Sunday is 6. *)
Definition weekday (d : date) : Z := (toordinal d + 6) mod 7.

(** [date.replace(year=y)]. *)
Definition replace_year (d : date) (y : Z) : res date :=
  date_new y (month d) (day d).

(** [a < b]: dates compare as the tuples (year, month, day). *)
Definition date_lt (a b : date) : bool :=
  (year a <? year b)
  || ((year a =? year b)
      && ((month a <? month b)
          || ((month a =? month b) && (day a <? day b)))).

(** [(a - b).days]. *)
Definition sub_days (a b : date) : Z := toordinal a - toordinal b.

(** [timedelta(days=n)], of which only the day count is kept. *)
Definition timedelta (n : Z) : res Z :=
  if 999999999 <? Z.abs n
  then Raise (OverflowError
    (lit "days=" ++ str_of_Z n ++ lit "; must have magnitude <= 999999999"))
  else Ok n.

(** [d + timedelta(days=n)]. *)
Definition add_days (d : date) (n : Z) : res date :=
  let o := toordinal d + n in
  if (0 <? o) && (o <=? MAXORDINAL)
  then Ok (ord2ymd o)
  else Raise (OverflowError (lit "date value out of range")).

(** The dates a [date] object can hold. *)
Definition valid (d : date) : Prop :=
  MINYEAR <= year d <= MAXYEAR /\ 1 <= month d <= 12
  /\ 1 <= day d <= days_in_month (year d) (month d).

(** [str(d)]: ISO format, zero padded. *)
Definition pad (width : nat) (s : pystr) : pystr :=
  repeat (N_of_ascii "0"%char) (width - length s) ++ s.

Definition isoformat (d : date) : pystr :=
  pad 4 (str_of_Z (year d)) ++ lit "-" ++ pad 2 (str_of_Z (month d))
  ++ lit "-" ++ pad 2 (str_of_Z (day d)).

End Datetime.

(** ** [datetime.strptime(s, "%d.%m.%Y")] *)

Module Strptime.
Import Unicode Datetime.

(** A backtracking matcher yields, in the order the [re] engine tries
    them, the ways a pattern matches a prefix of the input: the matched
    text and the rest. *)
Definition matcher := pystr -> list (pystr * pystr).

Definition re_one (p : N -> bool) : matcher := fun s =>
  match s with
  | c :: rest => if p c then [([c], rest)] else []
  | [] => []
  end.

Definition chr_is (a : ascii) (c : N) : bool := (c =? N_of_ascii a)%N.

Definition re_seq (p q : matcher) : matcher := fun s =>
  flat_map (fun m1 => map (fun m2 => (fst m1 ++ fst m2, snd m2)) (q (snd m1)))
           (p s).

Definition re_alt (p q : matcher) : matcher := fun s => p s ++ q s.

(** [(?P<d>3[0-1]|[1-2]\d|0[1-9]|[1-9]| [1-9])] *)
Definition re_d : matcher :=
  re_alt (re_seq (re_one (chr_is "3")) (re_one (in_class "0" "1")))
 (re_alt (re_seq (re_one (in_class "1" "2")) (re_one isdecimal))
 (re_alt (re_seq (re_one (chr_is "0")) (re_one (in_class "1" "9")))
 (re_alt (re_one (in_class "1" "9"))
      (re_seq (re_one (chr_is " ")) (re_one (in_class "1" "9")))))).

(** [(?P<m>1[0-2]|0[1-9]|[1-9])] *)
Definition re_m : matcher :=
  re_alt (re_seq (re_one (chr_is "1")) (re_one (in_class "0" "2")))
 (re_alt (re_seq (re_one (chr_is "0")) (re_one (in_class "1" "9")))
      (re_one (in_class "1" "9"))).

(** [(?P<Y>\d\d\d\d)] *)
Definition re_Y : matcher :=
  re_seq (re_one isdecimal) (re_seq (re_one isdecimal)
    (re_seq (re_one isdecimal) (re_one isdecimal))).

Definition re_dot : matcher := re_one (chr_is ".").

(** The ways the whole pattern matches a prefix of the input, in the
    order the engine finds them: the three groups and the text left
    after the match. *)
Definition format_regex_matches (s : pystr)
  : list (pystr * pystr * pystr * pystr) :=
  flat_map (fun d =>
    flat_map (fun dot1 =>
      flat_map (fun m =>
        flat_map (fun dot2 =>
          map (fun y => (fst d, fst m, fst y, snd y)) (re_Y (snd dot2)))
          (re_dot (snd m)))
        (re_m (snd dot1)))
      (re_dot (snd d)))
    (re_d s).

(** [format_regex.match(data_string)]: the first of them. *)
Definition format_regex_match (s : pystr)
  : option (pystr * pystr * pystr * pystr) :=
  head (format_regex_matches s).

(** [int(text)] on the texts the groups can capture: blanks around a
    run of decimal digits. Signs, underscores and other white space do
    not occur there. The quoted operand of the message is left out. *)
Fixpoint lstrip (s : pystr) : pystr :=
  match s with
  | c :: rest => if chr_is " " c then lstrip rest else s
  | [] => []
  end.

Definition strip (s : pystr) : pystr := rev (lstrip (rev (lstrip s))).

Fixpoint digits_value (acc : Z) (s : pystr) : option Z :=
  match s with
  | [] => Some acc
  | c :: rest =>
      match decimal c with
      | Some v => digits_value (10 * acc + v) rest
      | None => None
      end
  end.

Definition py_int (s : pystr) : res Z :=
  match strip s with
  | [] => Raise (ValueError (lit "invalid literal for int() with base 10"))
  | t =>
      match digits_value 0 t with
      | Some v => Ok v
      | None => Raise (ValueError (lit "invalid literal for int() with base 10"))
      end
  end.

(** [datetime.strptime(data_string, "%d.%m.%Y").date()]. The messages
    leave out the quoted data. *)
Definition strptime_date (data_string : pystr) : res date :=
  match format_regex_match data_string with
  | None => Raise (ValueError (lit "time data does not match format"))
  | Some (d, m, y, rest) =>
      match rest with
      | _ :: _ => Raise (ValueError (lit "unconverted data remains"))
      | [] =>
          let* day := py_int d in
          let* month := py_int m in
          let* year := py_int y in
          date_new year month day
      end
  end.

End Strptime.

Import Datetime.

(** ** Fields *)

Record Name : Type := mkName { name_value : pystr }.
Record Phone : Type := mkPhone { phone_value : pystr }.
Record Birthday : Type := mkBirthday { birthday_value : date }.

(** [Field.__str__] at each field class. *)
Definition Name_str (n : Name) : pystr := name_value n.
Definition Phone_str (p : Phone) : pystr := phone_value p.
Definition Birthday_str (b : Birthday) : pystr := isoformat (birthday_value b).

Definition Name_init (name : pystr) : Name := mkName name.

Definition date_format_message : pystr :=
  lit "Invalid date format. Use DD.MM.YYYY".

(** [Birthday.__init__]: every [ValueError] of the body is replaced by the
    fixed one. *)
Definition Birthday_init (birthday_date_s : pystr) : res Birthday :=
  let body :=
    if negb (length birthday_date_s =? 10)%nat
    then Raise (ValueError date_format_message)
    else
      let* birthday_date_t := Strptime.strptime_date birthday_date_s in
      Ok (mkBirthday birthday_date_t) in
  match body with
  | Raise (ValueError _) => Raise (ValueError date_format_message)
  | r => r
  end.

Definition phone_message : pystr := lit "Phone number must be 10 digits long!".

(** [Phone.__init__] *)
Definition Phone_init (phone : pystr) : res Phone :=
  if negb (str_isdigit phone) || negb (length phone =? 10)%nat
  then Raise (ValueError phone_message)
  else Ok (mkPhone phone).

(** ** Record *)

Record RecordObj : Type := mkRecord {
  name : Name;
  phones : list Phone;
  birthday : option Birthday
}.

Definition set_phones (ps : list Phone) (r : RecordObj) : RecordObj :=
  mkRecord (name r) ps (birthday r).

Definition set_birthday (b : option Birthday) (r : RecordObj) : RecordObj :=
  mkRecord (name r) (phones r) b.

(** [Record.__init__] *)
Definition Record_init (nm : pystr) : RecordObj :=
  mkRecord (Name_init nm) [] None.

(** A method of a record object: the object after the call, and the value
    returned or the exception raised. *)
Definition method (A : Type) : Type := RecordObj -> RecordObj * res A.

Definition add_birthday (birthday_date_s : pystr) : method unit := fun self =>
  match Birthday_init birthday_date_s with
  | Ok b => (set_birthday (Some b) self, Ok tt)
  | Raise e => (self, Raise e)
  end.

Definition add_phone (phone : pystr) : method unit := fun self =>
  match Phone_init phone with
  | Ok p => (set_phones (phones self ++ [p]) self, Ok tt)
  | Raise e => (self, Raise e)
  end.

(** The scan of [find_phone] over the list. *)
Fixpoint find_phone_in (phone : pystr) (l : list Phone) : option Phone :=
  match l with
  | [] => None
  | ph :: rest =>
      if pystr_eqb (phone_value ph) phone then Some ph
      else find_phone_in phone rest
  end.

Definition find_phone (phone : pystr) (self : RecordObj) : option Phone :=
  find_phone_in phone (phones self).

(** [list.remove(x)]: drops the first element equal to [x]. A [Phone]
    compares by identity and every element of the list is an object of its
    own, so the element dropped is the one [find_phone] returned: the first
    whose value is the text looked for. *)
Fixpoint list_remove (phone : pystr) (l : list Phone) : list Phone :=
  match l with
  | [] => []
  | ph :: rest =>
      if pystr_eqb (phone_value ph) phone then rest
      else ph :: list_remove phone rest
  end.

Definition remove_phone (phone : pystr) : method unit := fun self =>
  match find_phone phone self with
  | Some phone_to_remove =>
      (set_phones (list_remove (phone_value phone_to_remove) (phones self)) self,
       Ok tt)
  | None => (self, Ok tt)
  end.

Definition incorrect_message : pystr := lit "Phone number is incorrect".

Definition edit_phone (old_phone new_phone : pystr) : method unit := fun self =>
  match find_phone old_phone self with
  | Some _ =>
      let '(self1, _) := remove_phone old_phone self in
      add_phone new_phone self1
  | None => (self, Raise (ValueError incorrect_message))
  end.

(** [str.join] *)
Fixpoint join (sep : pystr) (l : list pystr) : pystr :=
  match l with
  | [] => []
  | [x] => x
  | x :: rest => x ++ sep ++ join sep rest
  end.

(** [Record.__str__]; an absent birthday renders as [None]. *)
Definition Record_str (self : RecordObj) : pystr :=
  lit "Contact name: " ++ Name_str (name self)
  ++ lit ", phones: " ++ join (lit "; ") (map Phone_str (phones self))
  ++ lit ", birthday: "
  ++ match birthday self with
     | Some b => Birthday_str b
     | None => lit "None"
     end.

(** ** AddressBook *)

(** A [dict] keeps its keys in insertion order; assigning to a key that is
    present keeps the key's place. *)
Fixpoint dict_get {V} (k : pystr) (d : list (pystr * V)) : option V :=
  match d with
  | [] => None
  | (k', v) :: rest => if pystr_eqb k' k then Some v else dict_get k rest
  end.

Fixpoint dict_set {V} (k : pystr) (v : V) (d : list (pystr * V))
  : list (pystr * V) :=
  match d with
  | [] => [(k, v)]
  | (k', v') :: rest =>
      if pystr_eqb k' k then (k, v) :: rest else (k', v') :: dict_set k v rest
  end.

Fixpoint dict_del {V} (k : pystr) (d : list (pystr * V)) : list (pystr * V) :=
  match d with
  | [] => []
  | (k', v') :: rest =>
      if pystr_eqb k' k then rest else (k', v') :: dict_del k rest
  end.

(** Records are objects: the book's [data] holds references into a store of
    record objects, and a caller that holds a reference sees (and makes)
    the changes to the object the book holds. A reference is the index of
    the object in the store; objects are never freed. *)
Record State : Type := mkState {
  heap : list RecordObj;
  data : list (pystr * nat)
}.

Definition empty_book : State := mkState [] [].

(** [Record(name)] evaluated by a caller: a new object. *)
Definition new_Record (nm : pystr) (st : State) : State * nat :=
  (mkState (heap st ++ [Record_init nm]) (data st), length (heap st)).

(** Calling a method on the object behind a reference. *)
Definition call {A} (a : nat) (m : method A) (st : State)
  : option (State * res A) :=
  match heap st !! a with
  | Some r =>
      let '(r', out) := m r in
      Some (mkState (<[a := r']> (heap st)) (data st), out)
  | None => None
  end.

(** [AddressBook.add_record] *)
Definition add_record (record : nat) (st : State) : option State :=
  match heap st !! record with
  | Some r =>
      Some (mkState (heap st)
                    (dict_set (name_value (name r)) record (data st)))
  | None => None
  end.

(** [AddressBook.find] *)
Definition find (nm : pystr) (st : State) : option nat :=
  dict_get nm (data st).

(** [AddressBook.delete] *)
Definition delete (nm : pystr) (st : State) : State :=
  match dict_get nm (data st) with
  | Some _ => mkState (heap st) (dict_del nm (data st))
  | None => st
  end.

(** [AddressBook.find_next_weekday] *)
Definition find_next_weekday (start_date : date) (wd : Z) : res date :=
  let days_ahead := wd - weekday start_date in
  let days_ahead := if days_ahead <=? 0 then days_ahead + 7 else days_ahead in
  let* delta := timedelta days_ahead in
  add_days start_date delta.

(** [AddressBook.adjust_for_weekend] *)
Definition adjust_for_weekend (b : date) : res date :=
  if 5 <=? weekday b then find_next_weekday b 0 else Ok b.

(** [self.data.values()] *)
Definition values (st : State) : list RecordObj :=
  omap (fun kv => heap st !! snd kv) (data st).

(** The loop of [get_upcoming_birthdays] over the records left to visit. *)
Fixpoint upcoming_loop (today : date) (days : Z) (records : list RecordObj)
    (upcoming_birthdays : list date) : res (list date) :=
  match records with
  | [] => Ok upcoming_birthdays
  | record :: rest =>
      match birthday record with
      | None => upcoming_loop today days rest upcoming_birthdays
      | Some b =>
          let* birthday_this_year :=
            replace_year (birthday_value b) (year today) in
          let* birthday_this_year :=
            (if date_lt birthday_this_year today
             then replace_year birthday_this_year (year today + 1)
             else Ok birthday_this_year) in
          if (0 <=? sub_days birthday_this_year today)
             && (sub_days birthday_this_year today <=? days)
          then
            let* adjusted := adjust_for_weekend birthday_this_year in
            upcoming_loop today days rest (upcoming_birthdays ++ [adjusted])
          else upcoming_loop today days rest upcoming_birthdays
      end
  end.

(** [AddressBook.get_upcoming_birthdays]; [today] is what
    [datetime.now().date()] returns at the call. *)
Definition get_upcoming_birthdays (today : date) (days : Z) (st : State)
  : res (list date) :=
  upcoming_loop today days (values st) [].

(** [AddressBook.__str__] *)
Definition AddressBook_str (st : State) : pystr :=
  join [10%N] (map Record_str (values st)).

(** ** Command handlers *)

(** What a handler returns: a text, a record (handler [phone]) or the book
    (handler [all]). *)
Inductive value : Type :=
  | VStr (s : pystr)
  | VRecord (a : nat)
  | VBook.

(** A handler takes the book to the book after the call and the value
    returned or the exception raised. The result is [None] only on a state
    with a reference that has no object, which no run produces (see
    [reachable_wf]). *)
Definition handler : Type := State -> option (State * res value).

(** The decorator [input_error]. *)
Definition input_error (func : handler) : handler := fun st =>
  match func st with
  | Some (st', Ok v) => Some (st', Ok v)
  | Some (st', Raise (ValueError msg)) => Some (st', Ok (VStr msg))
  | Some (st', Raise IndexError) =>
      Some (st', Ok (VStr (lit "Give me phone and name please")))
  | Some (st', Raise KeyError) => Some (st', Ok (VStr (lit "Enter user name")))
  | Some (st', Raise e) => Some (st', Raise e)
  | None => None
  end.

(** The [ValueError] of an unpacking assignment whose right-hand side is too
    short or too long. *)
Definition not_enough (expected : pystr) (got : nat) : exn :=
  ValueError (lit "not enough values to unpack (expected " ++ expected
              ++ lit ", got " ++ str_of_nat got ++ lit ")").

Definition too_many (expected : pystr) : exn :=
  ValueError (lit "too many values to unpack (expected " ++ expected ++ lit ")").

(** The value a handler returns after a method call that returned. *)
Definition returning {A} (v : value) (out : State * res A)
  : State * res value :=
  match out with
  | (book, Ok _) => (book, Ok v)
  | (book, Raise e) => (book, Raise e)
  end.

Definition add_contact_body (args : list pystr) : handler := fun book =>
  match args with
  | nm :: phone :: _ =>
      '(book, record, message) ←
        match find nm book with
        | Some record => Some (book, record, lit "Contact updated.")
        | None =>
            let '(book, record) := new_Record nm book in
            book ← add_record record book;
            Some (book, record, lit "Contact added.")
        end;
      match phone with
      | _ :: _ => returning (VStr message) <$> call record (add_phone phone) book
      | [] => Some (book, Ok (VStr message))
      end
  | _ => Some (book, Raise (not_enough (lit "at least 2") (length args)))
  end.

Definition add_contact (args : list pystr) : handler :=
  input_error (add_contact_body args).

Definition change_contact_body (args : list pystr) : handler := fun book =>
  match args with
  | [nm; old_phone; new_phone] =>
      match find nm book with
      | Some record =>
          returning (VStr (lit "Phone updated."))
            <$> call record (edit_phone old_phone new_phone) book
      | None => Some (book, Ok (VStr (lit "Contact not found.")))
      end
  | _ :: _ :: _ :: _ :: _ => Some (book, Raise (too_many (lit "3")))
  | _ => Some (book, Raise (not_enough (lit "3") (length args)))
  end.

Definition change_contact (args : list pystr) : handler :=
  input_error (change_contact_body args).

Definition phone_body (args : list pystr) : handler := fun book =>
  match args with
  | [nm] =>
      match find nm book with
      | Some record => Some (book, Ok (VRecord record))
      | None => Some (book, Ok (VStr (lit "Contact not found.")))
      end
  | _ :: _ :: _ => Some (book, Raise (too_many (lit "1")))
  | [] => Some (book, Raise (not_enough (lit "1") (length args)))
  end.

Definition phone (args : list pystr) : handler :=
  input_error (phone_body args).

Definition all_contacts : handler :=
  input_error (fun book => Some (book, Ok VBook)).

Definition add_birthday_body (args : list pystr) : handler := fun book =>
  match args with
  | [nm; birthday_date] =>
      match find nm book with
      | Some record =>
          returning (VStr (lit "Birthday added."))
            <$> call record (add_birthday birthday_date) book
      | None => Some (book, Ok (VStr (lit "Contact not found.")))
      end
  | _ :: _ :: _ :: _ => Some (book, Raise (too_many (lit "2")))
  | _ => Some (book, Raise (not_enough (lit "2") (length args)))
  end.

Definition add_birthday_handler (args : list pystr) : handler :=
  input_error (add_birthday_body args).

Definition show_birthday_body (args : list pystr) : handler := fun book =>
  match args with
  | [nm] =>
      match find nm book with
      | Some record =>
          r ← heap book !! record;
          match birthday r with
          | Some b =>
              Some (book, Ok (VStr (Name_str (name r)
                                    ++ lit "'s birthday is on "
                                    ++ Birthday_str b)))
          | None => Some (book, Ok (VStr (lit "Contact or birthday not found.")))
          end
      | None => Some (book, Ok (VStr (lit "Contact or birthday not found.")))
      end
  | _ :: _ :: _ => Some (book, Raise (too_many (lit "1")))
  | [] => Some (book, Raise (not_enough (lit "1") (length args)))
  end.

Definition show_birthday (args : list pystr) : handler :=
  input_error (show_birthday_body args).

(** Handler [birthdays]; [today] as in [get_upcoming_birthdays]. *)
Definition birthdays (today : date) : handler :=
  input_error (fun book =>
    match get_upcoming_birthdays today 7 book with
    | Ok [] => Some (book, Ok (VStr (lit "No upcoming birthdays.")))
    | Ok upcoming =>
        Some (book, Ok (VStr (join [10%N] (map isoformat upcoming))))
    | Raise e => Some (book, Raise e)
    end).

(** ** Runs of the public operations *)

(** One operation of a client of the book: creating a record object,
    the methods of a record, the methods of the book and the handlers. *)
Inductive op : Type :=
  | OpRecord (nm : pystr)
  | OpAddPhone (a : nat) (p : pystr)
  | OpRemovePhone (a : nat) (p : pystr)
  | OpEditPhone (a : nat) (old_phone new_phone : pystr)
  | OpAddBirthday (a : nat) (s : pystr)
  | OpAddRecord (a : nat)
  | OpFind (nm : pystr)
  | OpDelete (nm : pystr)
  | OpUpcoming (today : date) (days : Z)
  | OpAddContact (args : list pystr)
  | OpChangeContact (args : list pystr)
  | OpAddBirthdayCmd (args : list pystr).

(** The state after an operation; [None] when the operation names a
    reference the client cannot hold. *)
Definition step (o : op) (st : State) : option State :=
  match o with
  | OpRecord nm => Some (fst (new_Record nm st))
  | OpAddPhone a p => fst <$> call a (add_phone p) st
  | OpRemovePhone a p => fst <$> call a (remove_phone p) st
  | OpEditPhone a o n => fst <$> call a (edit_phone o n) st
  | OpAddBirthday a s => fst <$> call a (add_birthday s) st
  | OpAddRecord a => add_record a st
  | OpFind _ => Some st
  | OpDelete nm => Some (delete nm st)
  | OpUpcoming _ _ => Some st
  | OpAddContact args => fst <$> add_contact args st
  | OpChangeContact args => fst <$> change_contact args st
  | OpAddBirthdayCmd args => fst <$> add_birthday_handler args st
  end.

Fixpoint run (ops : list op) (st : State) : option State :=
  match ops with
  | [] => Some st
  | o :: rest => st' ← step o st; run rest st'
  end.

(** The invariant of the collection: every value's name is its key. *)
Definition name_is_key (st : State) : Prop :=
  forall k a, In (k, a) (data st) ->
    exists r, heap st !! a = Some r /\ name_value (name r) = k.

(** ** The properties as the specification words them *)

(** A decimal digit, [0] to [9]. *)
Definition is_decimal_digit (c : N) : bool := Unicode.in_class "0" "9" c.

(** "Exactly 10 characters and every character is a decimal digit". *)
Definition ten_decimal_digits (p : pystr) : Prop :=
  length p = 10%nat /\ Forall (fun c => is_decimal_digit c = true) p.

(** The value of a run of decimal digits [0] to [9]. *)
Definition digit_value (c : N) : Z := Z.of_N c - 48.

Definition number (cs : list N) : Z :=
  fold_left (fun acc c => 10 * acc + digit_value c) cs 0.

(** "Parses under the fixed pattern DD.MM.YYYY into a real calendar date":
    two digits, a dot, two digits, a dot, four digits, which name the day,
    the month and the year of a date that exists. *)
Definition parses_DD_MM_YYYY (s : pystr) (d : date) : Prop :=
  exists d1 d2 m1 m2 y1 y2 y3 y4,
    s = [d1; d2; 46%N; m1; m2; 46%N; y1; y2; y3; y4]
    /\ Forall (fun c => is_decimal_digit c = true)
              [d1; d2; m1; m2; y1; y2; y3; y4]
    /\ d = mkdate (number [y1; y2; y3; y4]) (number [m1; m2]) (number [d1; d2])
    /\ valid d.

(** The projection of a birthday onto the current year, rolled to the next
    year when it has already passed. *)
Definition projected (today : date) (b : date) : res date :=
  let* this_year := replace_year b (year today) in
  if date_lt this_year today then replace_year this_year (year today + 1)
  else Ok this_year.

(** The days-until of a projected date lies in [[0, days]]. *)
Definition in_window (today : date) (days : Z) (p : date) : bool :=
  (0 <=? sub_days p today) && (sub_days p today <=? days).

(** Saturday and Sunday are replaced by the following Monday. *)
Definition weekend_adjusted (p : date) : date :=
  if weekday p =? 5 then ord2ymd (toordinal p + 2)
  else if weekday p =? 6 then ord2ymd (toordinal p + 1)
  else p.

(** The birthdays the book holds, in iteration order. *)
Definition stored_birthdays (st : State) : list date :=
  omap (fun r => birthday_value <$> birthday r) (values st).

(** All results, or the first exception. *)
Fixpoint mapM_res {A B} (f : A -> res B) (l : list A) : res (list B) :=
  match l with
  | [] => Ok []
  | x :: rest =>
      let* y := f x in
      let* ys := mapM_res f rest in
      Ok (y :: ys)
  end.

(** ** Definitions the statements and the proofs use *)

(** The check that [month_day] inverts the count of days before a month. *)
Definition month_day_ok (leapyear : bool) (n : Z) : bool :=
  let '(m, d) := month_day leapyear n in
  (1 <=? m) && (m <=? 12) && (1 <=? d)
  && (d <=? DAYS_IN_MONTH m + (if (m =? 2) && leapyear then 1 else 0))
  && (DAYS_BEFORE_MONTH m + (if (2 <? m) && leapyear then 1 else 0) + d
      =? n + 1).

(** The number of days [find_next_weekday] goes ahead. *)
Definition days_ahead (start_date : date) (wd : Z) : Z :=
  (wd - weekday start_date - 1) mod 7 + 1.

(** The texts [%d.%m.%Y] reads as a day and as a month when they take two
    characters: a day is [30], [31], [1] or [2] and any decimal digit,
    [01] to [09], or a blank and [1] to [9]; a month is [10] to [12] or
    [01] to [09]. *)
Definition day_token (c0 c1 : N) : bool :=
  (Strptime.chr_is "3" c0 && Unicode.in_class "0" "1" c1)
  || (Unicode.in_class "1" "2" c0 && Unicode.isdecimal c1)
  || (Strptime.chr_is "0" c0 && Unicode.in_class "1" "9" c1)
  || (Strptime.chr_is " " c0 && Unicode.in_class "1" "9" c1).

Definition month_token (c0 c1 : N) : bool :=
  (Strptime.chr_is "1" c0 && Unicode.in_class "0" "2" c1)
  || (Strptime.chr_is "0" c0 && Unicode.in_class "1" "9" c1).

(** The number a token stands for; a blank counts for nothing. *)
Definition dec (c : N) : Z := default 0 (Unicode.decimal c).

Definition token_number (cs : list N) : Z :=
  fold_left (fun acc c => 10 * acc + dec c) cs 0.

Definition valid_b (d : date) : bool :=
  (MINYEAR <=? year d) && (year d <=? MAXYEAR)
  && (1 <=? month d) && (month d <=? 12)
  && (1 <=? day d) && (day d <=? days_in_month (year d) (month d)).

(** The date a text of ten characters stands for under [%d.%m.%Y], when
    it stands for one. *)
Definition accepted_date (s : pystr) : option date :=
  match s with
  | [d1; d2; dot1; m1; m2; dot2; y1; y2; y3; y4] =>
      if day_token d1 d2 && Strptime.chr_is "." dot1
         && month_token m1 m2 && Strptime.chr_is "." dot2
         && forallb Unicode.isdecimal [y1; y2; y3; y4]
      then
        let d := mkdate (token_number [y1; y2; y3; y4])
                        (token_number [m1; m2]) (token_number [d1; d2]) in
        if valid_b d then Some d else None
      else None
  | _ => None
  end.

(** The ten characters of a text the pattern accepts as a whole. *)
Definition shape (s : pystr) (dg mg yg : pystr) : Prop :=
  exists d1 d2 m1 m2 y1 y2 y3 y4,
    s = [d1; d2; 46%N; m1; m2; 46%N; y1; y2; y3; y4]
    /\ dg = [d1; d2] /\ mg = [m1; m2] /\ yg = [y1; y2; y3; y4]
    /\ day_token d1 d2 = true /\ month_token m1 m2 = true
    /\ forallb Unicode.isdecimal [y1; y2; y3; y4] = true.

(** No method of a record changes its name. *)
Definition keeps_name {A} (m : method A) : Prop :=
  forall r, name (fst (m r)) = name r.

(** ** Definitions for the further properties *)

(** The number of phones of a record with a given value. *)
Definition count_phone (v : pystr) (l : list Phone) : nat :=
  length (List.filter (fun ph => pystr_eqb (phone_value ph) v) l).

(** What the validation of a field lets through. *)
Definition phone_ok (ph : Phone) : Prop :=
  length (phone_value ph) = 10%nat
  /\ forallb Unicode.isdigit (phone_value ph) = true.

Definition record_ok (r : RecordObj) : Prop :=
  Forall phone_ok (phones r)
  /\ forall b, birthday r = Some b -> valid (birthday_value b).

(** Every record object, in the book or not, holds validated fields. *)
Definition fields_valid (st : State) : Prop := Forall record_ok (heap st).

(** The keys of the book are distinct. *)
Definition keys_unique (st : State) : Prop := NoDup (map fst (data st)).

(** A method keeps the fields of a record validated. *)
Definition keeps_ok {A} (m : method A) : Prop :=
  forall r, record_ok r -> record_ok (fst (m r)).

(** The methods the handlers and the clients call on a record. *)
Inductive record_method : forall A, method A -> Prop :=
  | rm_add_phone p : record_method unit (add_phone p)
  | rm_remove_phone p : record_method unit (remove_phone p)
  | rm_edit_phone o n : record_method unit (edit_phone o n)
  | rm_add_birthday s : record_method unit (add_birthday s).

(** The elementary changes of the state every operation is made of. *)
Inductive basic : State -> State -> Prop :=
  | basic_call A a (m : method A) st st' out :
      record_method A m -> call a m st = Some (st', out) -> basic st st'
  | basic_new nm st : basic st (fst (new_Record nm st))
  | basic_add a st st' : add_record a st = Some st' -> basic st st'
  | basic_del nm st : basic st (delete nm st).

(** The state is as the program keeps it. *)
Definition wf (st : State) : Prop :=
  name_is_key st /\ fields_valid st /\ keys_unique st.

(** The book with the object behind a reference replaced. *)
Definition with_record (a : nat) (r : RecordObj) (st : State) : State :=
  mkState (<[a := r]> (heap st)) (data st).

(** The exceptions that are of class [ValueError]. *)
Definition is_ValueError (e : exn) : Prop := exists msg, e = ValueError msg.

(** [str.isspace] on one character (Unicode 14.0.0): the white space
    [str.split] and [str.strip] work with. *)
Definition isspace (c : N) : bool :=
  Unicode.in_ranges
    [ (9, 13); (28, 32); (133, 133); (160, 160); (5760, 5760);
      (8192, 8202); (8232, 8233); (8239, 8239); (8287, 8287);
      (12288, 12288) ]%N c.

(** [str.split()]: the maximal runs of characters that are not white
    space; [cur] is the run being read. *)
Fixpoint str_split_from (cur : pystr) (s : pystr) : list pystr :=
  match s with
  | [] => match cur with [] => [] | _ => [cur] end
  | c :: rest =>
      if isspace c
      then match cur with
           | [] => str_split_from [] rest
           | _ => cur :: str_split_from [] rest
           end
      else str_split_from (cur ++ [c]) rest
  end.

Definition str_split (s : pystr) : list pystr := str_split_from [] s.

(** [str.strip()] *)
Fixpoint str_lstrip (s : pystr) : pystr :=
  match s with
  | c :: rest => if isspace c then str_lstrip rest else s
  | [] => []
  end.

Definition str_strip (s : pystr) : pystr :=
  rev (str_lstrip (rev (str_lstrip s))).

(** [parse_input]. The case mapping of [str.lower] is not modelled: it is
    the parameter [lower]. *)
Definition parse_input (lower : pystr -> pystr) (user_input : pystr)
  : res (pystr * list pystr) :=
  match str_split user_input with
  | command :: args => Ok (lower (str_strip command), args)
  | [] => Raise (not_enough (lit "at least 1") 0)
  end.

(** [print(x)] writes [str(x)]. *)
Definition printed (v : value) (book : State) : option pystr :=
  match v with
  | VStr s => Some s
  | VRecord a => Record_str <$> heap book !! a
  | VBook => Some (AddressBook_str book)
  end.

(** One turn of the loop of [main] after [input] has returned a line: what
    is printed and the book to go on with; the end of the session, with the
    book that is saved; or the exception that ends the program. *)
Inductive turn : Type :=
  | Continue (out : pystr) (book : State)
  | Exit (out : pystr) (saved : State)
  | Crash (e : exn).

(** The turn of a command that calls a handler. *)
Definition print_result (r : option (State * res value)) : option turn :=
  '(book, out) ← r;
  match out with
  | Ok v => s ← printed v book; Some (Continue s book)
  | Raise e => Some (Crash e)
  end.

Definition main_turn (lower : pystr -> pystr) (today : date)
    (user_input : pystr) (book : State) : option turn :=
  match parse_input lower user_input with
  | Raise e => Some (Crash e)
  | Ok (command, args) =>
      if pystr_eqb command (lit "close") || pystr_eqb command (lit "exit")
      then Some (Exit (lit "Good bye!") book)
      else if pystr_eqb command (lit "hello")
      then Some (Continue (lit "How can I help you?") book)
      else if pystr_eqb command (lit "add")
      then print_result (add_contact args book)
      else if pystr_eqb command (lit "change")
      then print_result (change_contact args book)
      else if pystr_eqb command (lit "phone")
      then print_result (phone args book)
      else if pystr_eqb command (lit "all")
      then print_result (all_contacts book)
      else if pystr_eqb command (lit "add-birthday")
      then print_result (add_birthday_handler args book)
      else if pystr_eqb command (lit "show-birthday")
      then print_result (show_birthday args book)
      else if pystr_eqb command (lit "birthdays")
      then print_result (birthdays today book)
      else Some (Continue (lit "Invalid command.") book)
  end.

(** A tiny stand-in for [str.lower] on the letters A to Z. *)
Definition ascii_lower (s : pystr) : pystr :=
  map (fun c => if ((65 <=? c) && (c <=? 90))%N then (c + 32)%N else c) s.

(** A token: a text that is not empty and holds no white space. *)
Definition token (t : pystr) : Prop :=
  t <> [] /\ forallb (fun c => negb (isspace c)) t = true.

(** What the value of a handler prints. *)
Definition printable (v : value) (st : State) : Prop :=
  match v with
  | VRecord a => is_Some (heap st !! a)
  | _ => True
  end.

(** * Properties *)

(** ** The calendar *)

Module DatetimeFacts.

Ltac bools :=
  repeat match goal with
  | H : _ && _ = true |- _ => apply andb_true_iff in H; destruct H
  | H : _ || _ = false |- _ => apply orb_false_iff in H; destruct H
  | H : negb _ = true |- _ => apply negb_true_iff in H
  | H : negb _ = false |- _ => apply negb_false_iff in H
  | H : (_ =? _) = true |- _ => apply Z.eqb_eq in H
  | H : (_ =? _) = false |- _ => apply Z.eqb_neq in H
  | H : (_ <? _) = true |- _ => apply Z.ltb_lt in H
  | H : (_ <? _) = false |- _ => apply Z.ltb_ge in H
  | H : (_ <=? _) = true |- _ => apply Z.leb_le in H
  | H : (_ <=? _) = false |- _ => apply Z.leb_gt in H
  end.

Ltac split_bools :=
  repeat match goal with
  | |- context [?a =? ?b] => destruct (Z.eqb_spec a b)
  | |- context [?a <? ?b] => destruct (Z.ltb_spec a b)
  | |- context [?a <=? ?b] => destruct (Z.leb_spec a b)
  end; simpl.

Ltac divmod := Z.div_mod_to_equations; lia.

Lemma is_leap_cases y :
  (is_leap y = true /\ y mod 4 = 0 /\ (y mod 100 <> 0 \/ y mod 400 = 0))
  \/ (is_leap y = false /\ (y mod 4 <> 0 \/ (y mod 100 = 0 /\ y mod 400 <> 0))).
Proof. unfold is_leap. split_bools; intuition lia. Qed.

Lemma days_before_year_succ y :
  days_before_year (y + 1)
  = days_before_year y + 365 + (if is_leap y then 1 else 0).
Proof.
  unfold days_before_year. replace (y + 1 - 1) with y by lia.
  destruct (is_leap_cases y) as [(-> & ? & ?) | (-> & ?)]; divmod.
Qed.


Lemma days_before_year_mono a b :
  a <= b -> days_before_year a <= days_before_year b.
Proof.
  intros Hab. replace b with (a + Z.of_nat (Z.to_nat (b - a))) by lia.
  induction (Z.to_nat (b - a)) as [|k IH].
  - replace (a + Z.of_nat 0) with a by lia. lia.
  - replace (a + Z.of_nat (S k)) with (a + Z.of_nat k + 1) by lia.
    rewrite days_before_year_succ. destruct (is_leap _); lia.
Qed.

Lemma month_cases m :
  1 <= m <= 12 ->
  m = 1 \/ m = 2 \/ m = 3 \/ m = 4 \/ m = 5 \/ m = 6 \/ m = 7 \/ m = 8
  \/ m = 9 \/ m = 10 \/ m = 11 \/ m = 12.
Proof. lia. Qed.

Ltac each_month m H :=
  destruct (month_cases m H)
    as [-> | [-> | [-> | [-> | [-> | [-> | [-> | [-> | [-> | [-> | [-> | ->]]]]]]]]]]].

(** The last day of a month is the day before the first of the next. *)
Lemma days_before_month_succ y m :
  1 <= m <= 12 ->
  days_before_month y m + days_in_month y m
  = if m =? 12 then 365 + (if is_leap y then 1 else 0)
    else days_before_month y (m + 1).
Proof.
  intros H. unfold days_before_month, days_in_month.
  each_month m H; destruct (is_leap y); reflexivity.
Qed.

Lemma days_before_month_mono y m1 m2 :
  1 <= m1 <= 12 -> 1 <= m2 <= 12 -> m1 < m2 ->
  days_before_month y m1 + days_in_month y m1 <= days_before_month y m2.
Proof.
  intros H1 H2 Hlt. unfold days_before_month, days_in_month.
  each_month m1 H1; each_month m2 H2; try lia;
    destruct (is_leap y); simpl; lia.
Qed.

Lemma days_before_month_range y m :
  1 <= m <= 12 ->
  0 <= days_before_month y m
  /\ days_before_month y m + days_in_month y m
     <= 365 + (if is_leap y then 1 else 0).
Proof.
  intros H. unfold days_before_month, days_in_month.
  each_month m H; destruct (is_leap y); simpl; lia.
Qed.

(** Every date lies within its year. *)
Lemma toordinal_in_year d :
  valid d ->
  days_before_year (year d) < toordinal d <= days_before_year (year d + 1).
Proof.
  intros (Hy & Hm & Hd). unfold toordinal, ymd2ord.
  rewrite days_before_year_succ.
  pose proof (days_before_month_range (year d) _ Hm). lia.
Qed.

Lemma days_before_year_1 : days_before_year 1 = 0.
Proof. reflexivity. Qed.

Lemma days_before_year_last : days_before_year (MAXYEAR + 1) = MAXORDINAL.
Proof. reflexivity. Qed.

Lemma toordinal_range d : valid d -> 1 <= toordinal d <= MAXORDINAL.
Proof.
  intros Hv. pose proof (toordinal_in_year d Hv) as H.
  destruct Hv as (Hy & _). unfold MINYEAR, MAXYEAR in Hy.
  pose proof (days_before_year_mono 1 (year d) ltac:(lia)).
  pose proof (days_before_year_mono (year d + 1) (MAXYEAR + 1)
                ltac:(unfold MAXYEAR; lia)).
  rewrite days_before_year_1 in *. rewrite days_before_year_last in *. lia.
Qed.

Lemma date_lt_iff a b :
  date_lt a b = true
  <-> year a < year b
      \/ (year a = year b
          /\ (month a < month b \/ (month a = month b /\ day a < day b))).
Proof.
  unfold date_lt.
  rewrite !orb_true_iff, !andb_true_iff, !orb_true_iff, !andb_true_iff,
    !Z.ltb_lt, !Z.eqb_eq. reflexivity.
Qed.

(** The order of dates is the order of their ordinals. *)
Lemma date_lt_sound a b :
  valid a -> valid b -> date_lt a b = true -> toordinal a < toordinal b.
Proof.
  intros Ha Hb Hlt. apply date_lt_iff in Hlt as [Hy | [Hy [Hm | [Hm Hd]]]].
  - pose proof (toordinal_in_year a Ha).
    pose proof (toordinal_in_year b Hb).
    pose proof (days_before_year_mono (year a + 1) (year b) ltac:(lia)). lia.
  - destruct Ha as (_ & Hma & Hda), Hb as (_ & Hmb & Hdb).
    unfold toordinal, ymd2ord. rewrite Hy in *.
    pose proof (days_before_month_mono (year b) _ _ Hma Hmb Hm). lia.
  - destruct Ha as (_ & Hma & Hda), Hb as (_ & Hmb & Hdb).
    unfold toordinal, ymd2ord. rewrite Hy, Hm in *. lia.
Qed.

Lemma date_lt_total a b :
  date_lt a b = true \/ a = b \/ date_lt b a = true.
Proof.
  rewrite !date_lt_iff. destruct a as [ya ma da], b as [yb mb db]; simpl.
  destruct (Z.eq_dec ya yb) as [-> | ?], (Z.eq_dec ma mb) as [-> | ?],
    (Z.eq_dec da db) as [-> | ?]; [by right; left | ..].
  all: match goal with
       | |- ?L \/ _ \/ ?R => assert (L \/ R) as [? | ?] by lia; auto
       end.
Qed.

Lemma date_lt_toordinal a b :
  valid a -> valid b -> (date_lt a b = true <-> toordinal a < toordinal b).
Proof.
  intros Ha Hb. split; [by apply date_lt_sound |].
  intros Hlt. destruct (date_lt_total a b) as [? | [-> | Hba]]; [done | lia |].
  apply (date_lt_sound b a) in Hba; [lia | done | done].
Qed.


(** [month_day] inverts the count of days before a month, checked on
    every day of a year. *)
Lemma month_day_checked (leapyear : bool) :
  forallb (fun k => month_day_ok leapyear (Z.of_nat k))
          (List.seq 0 (if leapyear then 366 else 365)) = true.
Proof. destruct leapyear; vm_compute; reflexivity. Qed.

Lemma month_day_spec (leapyear : bool) n :
  0 <= n < 365 + (if leapyear then 1 else 0) ->
  month_day_ok leapyear n = true.
Proof.
  intros Hn. pose proof (month_day_checked leapyear) as H.
  rewrite forallb_forall in H. specialize (H (Z.to_nat n)).
  rewrite Z2Nat.id in H by lia. apply H, in_seq.
  destruct leapyear; lia.
Qed.

Lemma month_day_inv y n m d :
  0 <= n < 365 + (if is_leap y then 1 else 0) ->
  month_day (is_leap y) n = (m, d) ->
  1 <= m <= 12 /\ 1 <= d <= days_in_month y m
  /\ days_before_month y m + d = n + 1.
Proof.
  intros Hn Hmd. pose proof (month_day_spec _ _ Hn) as H.
  unfold month_day_ok in H. rewrite Hmd in H.
  unfold days_in_month, days_before_month. bools.
  assert (Hm : 1 <= m <= 12) by lia.
  each_month m Hm; destruct (is_leap y); simpl in *; lia.
Qed.

(** The count of days before a year, by the place of the year in the
    400, 100 and 4 year cycles. *)
Lemma days_before_year_cycles n400 n100 n4 n1 :
  0 <= n100 <= 3 -> 0 <= n4 <= 24 -> 0 <= n1 <= 3 ->
  days_before_year (n400 * 400 + 1 + n100 * 100 + n4 * 4 + n1)
  = n400 * DI400Y + n100 * DI100Y + n4 * DI4Y + n1 * 365.
Proof.
  intros. unfold days_before_year, DI400Y, DI100Y, DI4Y. divmod.
Qed.

Lemma is_leap_cycles n400 n100 n4 n1 :
  0 <= n100 <= 3 -> 0 <= n4 <= 24 -> 0 <= n1 <= 3 ->
  is_leap (n400 * 400 + 1 + n100 * 100 + n4 * 4 + n1)
  = (n1 =? 3) && (negb (n4 =? 24) || (n100 =? 3)).
Proof.
  intros. unfold is_leap. split_bools; try reflexivity; exfalso; divmod.
Qed.


(** [ord2ymd] is the inverse of [ymd2ord] on the ordinals of dates. *)
Lemma ord2ymd_spec n :
  1 <= n <= MAXORDINAL ->
  valid (ord2ymd n) /\ toordinal (ord2ymd n) = n.
Proof.
  intros Hn. unfold MAXORDINAL in Hn. unfold ord2ymd.
  remember (n - 1) as n0 eqn:En0.
  remember (n0 / DI400Y) as n400 eqn:E400.
  remember (n0 mod DI400Y) as r1 eqn:Er1.
  remember (r1 / DI100Y) as n100 eqn:E100.
  remember (r1 mod DI100Y) as r2 eqn:Er2.
  remember (r2 / DI4Y) as n4 eqn:E4.
  remember (r2 mod DI4Y) as r3 eqn:Er3.
  remember (r3 / 365) as n1 eqn:E1.
  remember (r3 mod 365) as r4 eqn:Er4.
  assert (n0 = DI400Y * n400 + r1 /\ 0 <= r1 < DI400Y) as [D1 B1]
    by (subst n400 r1; unfold DI400Y; divmod).
  assert (r1 = DI100Y * n100 + r2 /\ 0 <= r2 < DI100Y) as [D2 B2]
    by (subst n100 r2; unfold DI100Y; divmod).
  assert (r2 = DI4Y * n4 + r3 /\ 0 <= r3 < DI4Y) as [D3 B3]
    by (subst n4 r3; unfold DI4Y; divmod).
  assert (r3 = 365 * n1 + r4 /\ 0 <= r4 < 365) as [D4 B4]
    by (subst n1 r4; divmod).
  clear E400 Er1 E100 Er2 E4 Er3 E1 Er4.
  unfold DI400Y, DI100Y, DI4Y in *.
  destruct ((n1 =? 4) || (n100 =? 4)) eqn:Hlast.
  - (* the last day of a leap year *)
    assert (exists c1 c2,
      n400 * 400 + 1 + n100 * 100 + n4 * 4 + n1 - 1
      = n400 * 400 + 1 + c1 * 100 + c2 * 4 + 3
      /\ 0 <= c1 <= 3 /\ 0 <= c2 <= 24 /\ (c2 <> 24 \/ c1 = 3)
      /\ n = n400 * 146097 + c1 * 36524 + c2 * 1461 + 3 * 365 + 366)
      as (c1 & c2 & Ey & Hc1 & Hc2 & Hc & En).
    { apply orb_true_iff in Hlast as [H | H]; bools.
      - exists n100, n4. lia.
      - exists 3, 24. lia. }
    rewrite Ey. unfold valid, toordinal, ymd2ord, days_before_month,
      days_in_month, MINYEAR, MAXYEAR; simpl.
    rewrite is_leap_cycles, days_before_year_cycles by lia.
    unfold DI400Y, DI100Y, DI4Y.
    replace ((3 =? 3) && (negb (c2 =? 24) || (c1 =? 3))) with true
      by (split_bools; lia).
    simpl. lia.
  - bools.
    rewrite <- (is_leap_cycles n400 n100 n4 n1) by lia.
    set (y := n400 * 400 + 1 + n100 * 100 + n4 * 4 + n1).
    destruct (month_day (is_leap y) r4) as [m d] eqn:Emd.
    apply month_day_inv in Emd as (Hm & Hd & Hsum);
      [| destruct (is_leap y); lia].
    unfold valid, toordinal, ymd2ord, MINYEAR, MAXYEAR; simpl.
    unfold y at 4. rewrite days_before_year_cycles by lia.
    unfold DI400Y, DI100Y, DI4Y. subst y. lia.
Qed.

Lemma date_new_inv y m d x :
  date_new y m d = Ok x -> x = mkdate y m d /\ valid x.
Proof.
  unfold date_new, valid.
  destruct ((MINYEAR <=? y) && (y <=? MAXYEAR)) eqn:Hy; [| discriminate].
  destruct ((1 <=? m) && (m <=? 12)) eqn:Hm; [| discriminate].
  destruct ((1 <=? d) && (d <=? days_in_month y m)) eqn:Hd; [| discriminate].
  simpl. intros [= <-]. simpl. bools. unfold MINYEAR, MAXYEAR in *.
  split; [reflexivity | lia].
Qed.

Lemma date_new_valid d :
  valid d -> date_new (year d) (month d) (day d) = Ok d.
Proof.
  intros (Hy & Hm & Hd). unfold date_new. unfold MINYEAR, MAXYEAR in *.
  replace ((1 <=? year d) && (year d <=? 9999)) with true
    by (symmetry; apply andb_true_iff; split; lia).
  replace ((1 <=? month d) && (month d <=? 12)) with true
    by (symmetry; apply andb_true_iff; split; lia).
  replace ((1 <=? day d) && (day d <=? days_in_month (year d) (month d)))
    with true by (symmetry; apply andb_true_iff; split; lia).
  simpl. by destruct d.
Qed.

(** The constructor raises nothing but [ValueError]. *)
Lemma date_new_raises y m d e :
  date_new y m d = Raise e -> exists msg, e = ValueError msg.
Proof.
  unfold date_new. repeat case_match; intros [= <-]; eauto.
Qed.

Lemma weekday_ord2ymd o :
  1 <= o <= MAXORDINAL -> weekday (ord2ymd o) = (o + 6) mod 7.
Proof.
  intros Ho. unfold weekday. by destruct (ord2ymd_spec o Ho) as [_ ->].
Qed.

Lemma weekday_range d : 0 <= weekday d <= 6.
Proof. unfold weekday. divmod. Qed.

(** Adding days within the range of dates. *)
Lemma add_days_ok d k :
  1 <= toordinal d + k <= MAXORDINAL ->
  add_days d k = Ok (ord2ymd (toordinal d + k)).
Proof.
  intros H. unfold add_days.
  replace ((0 <? toordinal d + k) && (toordinal d + k <=? MAXORDINAL))
    with true; [done |].
  symmetry; apply andb_true_iff; split; lia.
Qed.

Lemma add_days_overflow d k :
  MAXORDINAL < toordinal d + k ->
  add_days d k = Raise (OverflowError (lit "date value out of range")).
Proof.
  intros H. unfold add_days.
  replace (toordinal d + k <=? MAXORDINAL) with false
    by (symmetry; apply Z.leb_gt; lia).
  by rewrite andb_false_r.
Qed.

Lemma timedelta_small k : -7 <= k <= 7 -> timedelta k = Ok k.
Proof.
  intros H. unfold timedelta.
  replace (999999999 <? Z.abs k) with false; [done |].
  symmetry; apply Z.ltb_ge; lia.
Qed.

End DatetimeFacts.

Import DatetimeFacts.

(** ** [find_next_weekday] *)

Section FindNextWeekday.

Variable start_date : date.
Variable wd : Z.
Hypothesis Hvalid : valid start_date.
Hypothesis Hwd : 0 <= wd <= 6.

Lemma days_ahead_range : 1 <= days_ahead start_date wd <= 7.
Proof. unfold days_ahead. divmod. Qed.

Lemma find_next_weekday_unfold :
  find_next_weekday start_date wd
  = add_days start_date (days_ahead start_date wd).
Proof.
  unfold find_next_weekday, days_ahead.
  pose proof (weekday_range start_date).
  set (w0 := weekday start_date) in *.
  assert ((if wd - w0 <=? 0 then wd - w0 + 7 else wd - w0)
          = (wd - w0 - 1) mod 7 + 1) as ->.
  { destruct (Z.leb_spec (wd - w0) 0); divmod. }
  rewrite timedelta_small by divmod. reflexivity.
Qed.

Lemma find_next_weekday_in_range :
  toordinal start_date + days_ahead start_date wd <= MAXORDINAL ->
  exists r,
    find_next_weekday start_date wd = Ok r
    /\ valid r
    /\ date_lt start_date r = true
    /\ weekday r = wd
    /\ sub_days r start_date = days_ahead start_date wd
    /\ 1 <= sub_days r start_date <= 7.
Proof.
  intros Hmax. pose proof days_ahead_range as Hk.
  pose proof (toordinal_range _ Hvalid) as Ho.
  set (k := days_ahead start_date wd) in *.
  destruct (ord2ymd_spec (toordinal start_date + k)) as [Hv Hord]; [lia |].
  exists (ord2ymd (toordinal start_date + k)).
  rewrite find_next_weekday_unfold. fold k.
  rewrite add_days_ok by lia. split; [done |]. split; [done |].
  split; [apply date_lt_toordinal; [done | done | lia] |].
  unfold sub_days. rewrite Hord.
  split; [| split; lia].
  unfold weekday. rewrite Hord. subst k. unfold days_ahead, weekday.
  divmod.
Qed.

Lemma find_next_weekday_overflow :
  MAXORDINAL < toordinal start_date + days_ahead start_date wd ->
  find_next_weekday start_date wd
  = Raise (OverflowError (lit "date value out of range")).
Proof.
  intros H. rewrite find_next_weekday_unfold. by apply add_days_overflow.
Qed.

End FindNextWeekday.

(** ** The loop of [get_upcoming_birthdays] *)

Section Upcoming.

Lemma adjust_for_weekend_spec p :
  valid p -> adjust_for_weekend p = Ok (weekend_adjusted p).
Proof.
  intros Hv. unfold adjust_for_weekend, weekend_adjusted.
  pose proof (toordinal_range p Hv) as Ho. unfold MAXORDINAL in Ho.
  pose proof (weekday_range p) as Hw.
  destruct (Z.leb_spec 5 (weekday p)) as [H5 | H5].
  - rewrite find_next_weekday_unfold by lia.
    assert (days_ahead p 0 = if weekday p =? 5 then 2 else 1) as Hk.
    { unfold days_ahead. destruct (Z.eqb_spec (weekday p) 5); divmod. }
    rewrite add_days_ok; rewrite Hk.
    + destruct (Z.eqb_spec (weekday p) 5); [done |].
      destruct (Z.eqb_spec (weekday p) 6); [done | lia].
    + unfold MAXORDINAL. unfold weekday in *.
      destruct (Z.eqb_spec ((toordinal p + 6) mod 7) 5); divmod.
  - destruct (Z.eqb_spec (weekday p) 5); [lia |].
    destruct (Z.eqb_spec (weekday p) 6); [lia | done].
Qed.

Lemma replace_year_inv d y x :
  replace_year d y = Ok x -> valid x /\ x = mkdate y (month d) (day d).
Proof. intros H. apply date_new_inv in H. tauto. Qed.

Lemma projected_valid today b p : projected today b = Ok p -> valid p.
Proof.
  unfold projected. destruct (replace_year b (year today)) as [x | e] eqn:E1;
    simpl; [| discriminate].
  apply replace_year_inv in E1 as [Hx _].
  destruct (date_lt x today).
  - intros H. by apply replace_year_inv in H as [? _].
  - by intros [= <-].
Qed.

Lemma projected_raises today b e :
  projected today b = Raise e -> exists msg, e = ValueError msg.
Proof.
  unfold projected, replace_year.
  destruct (date_new (year today) (month b) (day b)) as [x | e1] eqn:E1; simpl.
  - destruct (date_lt x today); [| discriminate]. apply date_new_raises.
  - intros [= <-]. by apply date_new_raises in E1.
Qed.

(** One turn of the loop on a record that has a birthday. *)
Lemma upcoming_loop_step today days r b rest acc :
  birthday r = Some b ->
  upcoming_loop today days (r :: rest) acc
  = let* p := projected today (birthday_value b) in
    if in_window today days p
    then let* adjusted := adjust_for_weekend p in
         upcoming_loop today days rest (acc ++ [adjusted])
    else upcoming_loop today days rest acc.
Proof.
  intros Hb. simpl. rewrite Hb. unfold projected, in_window.
  destruct (replace_year (birthday_value b) (year today)) as [x | e];
    simpl; [| done].
  by destruct (date_lt x today).
Qed.

(** The loop visits the records in order; what it has collected so far
    is kept in front. *)
Lemma upcoming_loop_spec today days records acc :
  upcoming_loop today days records acc
  = let* ps := mapM_res (projected today)
                 (omap (fun r => birthday_value <$> birthday r) records) in
    Ok (acc ++ map weekend_adjusted (List.filter (in_window today days) ps)).
Proof.
  revert acc. induction records as [| r rest IH]; intros acc.
  - simpl. by rewrite app_nil_r.
  - destruct (birthday r) as [b |] eqn:Hb.
    + rewrite (upcoming_loop_step _ _ _ _ _ _ Hb). simpl. rewrite Hb. simpl.
      destruct (projected today (birthday_value b)) as [p | e] eqn:Ep;
        simpl; [| done].
      rewrite (adjust_for_weekend_spec p (projected_valid _ _ _ Ep)). simpl.
      rewrite !IH. destruct (mapM_res _ _); simpl;
        destruct (in_window today days p); simpl; try done.
      by rewrite <- app_assoc.
    + simpl. rewrite Hb. simpl. apply IH.
Qed.

Lemma mapM_res_raises {A B} (f : A -> res B) (P : exn -> Prop) l x :
  (forall a e, f a = Raise e -> P e) ->
  In x l -> (exists e, f x = Raise e) ->
  exists e, mapM_res f l = Raise e /\ P e.
Proof.
  intros Hf Hin [e He]. induction l as [| a l IH]; [done |]. simpl.
  destruct (f a) as [y | e'] eqn:Ea; simpl.
  - destruct Hin as [-> | Hin]; [congruence |].
    destruct (IH Hin) as (e2 & -> & HP). simpl. eauto.
  - eauto.
Qed.

Lemma projected_leap_day today b :
  month b = 2 -> day b = 29 -> is_leap (year today) = false ->
  exists e, projected today b = Raise e.
Proof.
  intros Hm Hd Hleap. unfold projected, replace_year, date_new.
  rewrite Hm, Hd. unfold days_in_month. rewrite Hleap. simpl.
  destruct (negb _); simpl; eauto.
Qed.

End Upcoming.

(** ** [strptime] *)

Module StrptimeFacts.
Import Unicode Strptime.

(** The code points of the character literals. *)
Ltac chars :=
  repeat match goal with
  | |- context [N_of_ascii ?a] =>
      let v := eval vm_compute in (N_of_ascii a) in
      change (N_of_ascii a) with v
  | H : context [N_of_ascii ?a] |- _ =>
      let v := eval vm_compute in (N_of_ascii a) in
      change (N_of_ascii a) with v in H
  end.

Ltac atoms :=
  repeat match goal with
  | H : chr_is _ _ = true |- _ => apply N.eqb_eq in H
  | H : in_class _ _ _ = true |- _ =>
      apply andb_true_iff in H as [?%N.leb_le ?%N.leb_le]
  end; chars.

Lemma isdecimal_decimal c :
  isdecimal c = true -> exists v, decimal c = Some v /\ 0 <= v <= 9.
Proof.
  unfold isdecimal, decimal. generalize Nd_runs. intros runs.
  induction runs as [| [start k] runs IH]; simpl; [done |].
  destruct ((start <=? c)%N && (c <? start + 10 * k)%N).
  - intros _. eexists; split; [done |].
    assert ((c - start) mod 10 < 10)%N by (apply N.mod_upper_bound; lia).
    set (x := ((c - start) mod 10)%N) in *. lia.
  - apply IH.
Qed.

Lemma in_class_digit c :
  in_class "0" "9" c = true -> decimal c = Some (Z.of_N c - 48).
Proof.
  intros H. atoms. unfold decimal, Nd_runs, decimal_in.
  replace ((48 <=? c)%N && (c <? 48 + 10 * 1)%N) with true
    by (symmetry; apply andb_true_iff; split;
        [apply N.leb_le | apply N.ltb_lt]; lia).
  f_equal. rewrite N.mod_small by lia. lia.
Qed.

Lemma isdecimal_not_dot : isdecimal 46 = false.
Proof. reflexivity. Qed.

Lemma isdecimal_not_blank : isdecimal 32 = false.
Proof. reflexivity. Qed.


(** *** What the matchers match *)

Lemma re_one_In p s t r :
  In (t, r) (re_one p s) <-> exists c, s = c :: r /\ t = [c] /\ p c = true.
Proof.
  unfold re_one. destruct s as [| c s'].
  - split; [done | by intros (? & ? & _)].
  - destruct (p c) eqn:Hp; simpl; split.
    + intros [[= <- <-] | []]. eauto.
    + intros (c' & [= <- <-] & -> & _). by left.
    + done.
    + intros (c' & [= <- <-] & _ & ?). congruence.
Qed.

Lemma re_seq_In p q s t r :
  In (t, r) (re_seq p q s)
  <-> exists t1 r1 t2,
        In (t1, r1) (p s) /\ In (t2, r) (q r1) /\ t = t1 ++ t2.
Proof.
  unfold re_seq. rewrite in_flat_map. split.
  - intros ([t1 r1] & H1 & H2). apply in_map_iff in H2 as ([t2 r2] & E & H2).
    simpl in *. simplify_eq. eauto 10.
  - intros (t1 & r1 & t2 & H1 & H2 & ->). exists (t1, r1). split; [done |].
    apply in_map_iff. by exists (t2, r).
Qed.

Lemma re_alt_In p q s x : In x (re_alt p q s) <-> In x (p s) \/ In x (q s).
Proof. unfold re_alt. apply in_app_iff. Qed.

(** Two characters of the given classes. *)
Lemma re_pair_In p q s t r :
  In (t, r) (re_seq (re_one p) (re_one q) s)
  <-> exists c0 c1,
        s = c0 :: c1 :: r /\ t = [c0; c1] /\ p c0 = true /\ q c1 = true.
Proof.
  rewrite re_seq_In. setoid_rewrite re_one_In. split.
  - intros (t1 & r1 & t2 & (c0 & Hs & -> & ?) & (c1 & Hr & -> & ?) & ->).
    subst. by exists c0, c1.
  - intros (c0 & c1 & -> & -> & ? & ?).
    exists [c0], (c1 :: r), [c1]. eauto 10.
Qed.

Lemma re_d_In s t r :
  In (t, r) (re_d s)
  <-> (exists c0 c1, s = c0 :: c1 :: r /\ t = [c0; c1]
                     /\ day_token c0 c1 = true)
      \/ (exists c0, s = c0 :: r /\ t = [c0] /\ in_class "1" "9" c0 = true).
Proof.
  unfold re_d, day_token. rewrite !re_alt_In, !re_pair_In, re_one_In.
  split.
  - intros [H | [H | [H | [H | H]]]];
      [left | left | left | right; exact H | left];
      destruct H as (c0 & c1 & -> & -> & H1 & H2); exists c0, c1;
      repeat split; rewrite H1, H2; simpl; by rewrite ?orb_true_r.
  - intros [(c0 & c1 & -> & -> & H) | H]; [| by do 3 right; left].
    rewrite !orb_true_iff, !andb_true_iff in H.
    destruct H as [[[[? ?] | [? ?]] | [? ?]] | [? ?]];
      [left | right; left | do 2 right; left | do 4 right]; by exists c0, c1.
Qed.

Lemma re_m_In s t r :
  In (t, r) (re_m s)
  <-> (exists c0 c1, s = c0 :: c1 :: r /\ t = [c0; c1]
                     /\ month_token c0 c1 = true)
      \/ (exists c0, s = c0 :: r /\ t = [c0] /\ in_class "1" "9" c0 = true).
Proof.
  unfold re_m, month_token. rewrite !re_alt_In, !re_pair_In, re_one_In.
  split.
  - intros [H | [H | H]]; [left | left | right; exact H];
      destruct H as (c0 & c1 & -> & -> & H1 & H2); exists c0, c1;
      repeat split; rewrite H1, H2; simpl; by rewrite ?orb_true_r.
  - intros [(c0 & c1 & -> & -> & H) | H]; [| by do 2 right].
    rewrite !orb_true_iff, !andb_true_iff in H.
    destruct H as [[? ?] | [? ?]]; [left | right; left]; by exists c0, c1.
Qed.

Lemma re_Y_In s t r :
  In (t, r) (re_Y s)
  <-> exists y1 y2 y3 y4,
        s = y1 :: y2 :: y3 :: y4 :: r /\ t = [y1; y2; y3; y4]
        /\ forallb isdecimal [y1; y2; y3; y4] = true.
Proof.
  unfold re_Y. split.
  - intros (t1 & r1 & t2 & (y1 & -> & -> & H1)%re_one_In & H & ->)%re_seq_In.
    apply re_seq_In in H
      as (t2' & r2 & t3 & (y2 & -> & -> & H2)%re_one_In & H & ->).
    apply re_pair_In in H as (y3 & y4 & -> & -> & H3 & H4).
    exists y1, y2, y3, y4. simpl. by rewrite H1, H2, H3, H4.
  - intros (y1 & y2 & y3 & y4 & -> & -> & H). simpl in H.
    rewrite !andb_true_iff in H. destruct H as (H1 & H2 & H3 & H4 & _).
    apply re_seq_In. exists [y1], (y2 :: y3 :: y4 :: r), [y2; y3; y4].
    split; [apply re_one_In; eauto |]. split; [| done].
    apply re_seq_In. exists [y2], (y3 :: y4 :: r), [y3; y4].
    split; [apply re_one_In; eauto |]. split; [| done].
    apply re_pair_In. by exists y3, y4.
Qed.

Lemma re_dot_In s t r :
  In (t, r) (re_dot s) <-> s = 46%N :: r /\ t = [46%N].
Proof.
  unfold re_dot. rewrite re_one_In. unfold chr_is. chars. split.
  - by intros (c & -> & -> & ->%N.eqb_eq).
  - intros [-> ->]. by exists 46%N.
Qed.


Lemma format_regex_matches_In s dg mg yg rest :
  In (dg, mg, yg, rest) (format_regex_matches s)
  <-> exists r1 r2 r3 r4,
        In (dg, r1) (re_d s) /\ r1 = 46%N :: r2
        /\ In (mg, r3) (re_m r2) /\ r3 = 46%N :: r4
        /\ In (yg, rest) (re_Y r4).
Proof.
  unfold format_regex_matches. split.
  - intros ([dg' r1] & Hd & H)%in_flat_map. simpl in H.
    apply in_flat_map in H as ([t1 r2] & [E1 _]%re_dot_In & H). simpl in H.
    apply in_flat_map in H as ([mg' r3] & Hm & H). simpl in H.
    apply in_flat_map in H as ([t2 r4] & [E2 _]%re_dot_In & H). simpl in H.
    apply in_map_iff in H as ([yg' rest'] & E & Hy).
    simpl in *. simplify_eq. eauto 10.
  - intros (r1 & r2 & r3 & r4 & Hd & -> & Hm & -> & Hy).
    apply in_flat_map. exists (dg, 46%N :: r2). split; [done |].
    apply in_flat_map. exists ([46%N], r2). split; [by apply re_dot_In |].
    apply in_flat_map. exists (mg, 46%N :: r4). split; [done |].
    apply in_flat_map. exists ([46%N], r4). split; [by apply re_dot_In |].
    apply in_map_iff. by exists (yg, rest).
Qed.

Lemma day_token_not_dot c0 : day_token c0 46 = false.
Proof.
  unfold day_token. rewrite isdecimal_not_dot. cbn.
  by rewrite !andb_false_r.
Qed.

Lemma month_token_not_dot c0 : month_token c0 46 = false.
Proof. unfold month_token. cbn. by rewrite !andb_false_r. Qed.

(** A match of a text of ten characters that leaves nothing has groups of
    two, two and four characters. *)
Lemma full_match_shape s dg mg yg :
  length s = 10%nat ->
  In (dg, mg, yg, []) (format_regex_matches s) -> shape s dg mg yg.
Proof.
  intros Hlen (r1 & r2 & r3 & r4 & Hd & -> & Hm & -> & Hy)%format_regex_matches_In.
  apply re_Y_In in Hy as (y1 & y2 & y3 & y4 & -> & -> & Hy).
  apply re_d_In in Hd as [(d1 & d2 & -> & -> & Hd) | (d1 & -> & -> & _)];
  apply re_m_In in Hm as [(m1 & m2 & -> & -> & Hm) | (m1 & -> & -> & _)];
    simpl in Hlen; try lia.
  by exists d1, d2, m1, m2, y1, y2, y3, y4.
Qed.

(** Such a text matches in one way only. *)
Lemma shape_unique s dg mg yg x :
  shape s dg mg yg -> In x (format_regex_matches s) -> x = (dg, mg, yg, []).
Proof.
  intros (d1 & d2 & m1 & m2 & y1 & y2 & y3 & y4
          & -> & -> & -> & -> & Hdt & Hmt & Hyt).
  destruct x as [[[dg mg] yg] rest].
  intros (r1 & r2 & r3 & r4 & Hd & -> & Hm & -> & Hy)%format_regex_matches_In.
  apply re_Y_In in Hy as (z1 & z2 & z3 & z4 & -> & -> & _).
  apply re_d_In in Hd as [(c0 & c1 & E & -> & _) | (c0 & E & -> & _)];
    simplify_eq; [| by rewrite day_token_not_dot in Hdt].
  apply re_m_In in Hm as [(c2 & c3 & E & -> & _) | (c2 & E & -> & _)];
    simplify_eq; [done | by rewrite month_token_not_dot in Hmt].
Qed.

Lemma shape_In s dg mg yg :
  shape s dg mg yg -> In (dg, mg, yg, []) (format_regex_matches s).
Proof.
  intros (d1 & d2 & m1 & m2 & y1 & y2 & y3 & y4
          & -> & -> & -> & -> & Hdt & Hmt & Hyt).
  apply format_regex_matches_In.
  exists (46%N :: [m1; m2; 46%N; y1; y2; y3; y4]), [m1; m2; 46%N; y1; y2; y3; y4],
    (46%N :: [y1; y2; y3; y4]), [y1; y2; y3; y4].
  split; [apply re_d_In; left; by exists d1, d2 |]. split; [done |].
  split; [apply re_m_In; left; by exists m1, m2 |]. split; [done |].
  apply re_Y_In. by exists y1, y2, y3, y4.
Qed.

Lemma format_regex_match_shape s dg mg yg :
  shape s dg mg yg -> format_regex_match s = Some (dg, mg, yg, []).
Proof.
  intros Hs. pose proof (shape_In _ _ _ _ Hs) as Hin.
  unfold format_regex_match.
  destruct (format_regex_matches s) as [| x l] eqn:E; [done |]. simpl.
  f_equal. apply (shape_unique s); [done |]. rewrite E. by left.
Qed.

Lemma format_regex_match_full s dg mg yg :
  length s = 10%nat ->
  format_regex_match s = Some (dg, mg, yg, []) -> shape s dg mg yg.
Proof.
  intros Hlen H. apply full_match_shape; [done |].
  unfold format_regex_match in H.
  destruct (format_regex_matches s); simplify_eq/=. by left.
Qed.


(** *** [int] on the groups *)

Lemma isdecimal_ascii c : (48 <= c <= 57)%N -> isdecimal c = true.
Proof.
  intros H. unfold isdecimal. rewrite in_class_digit; [done |].
  unfold in_class. chars. apply andb_true_iff; split; apply N.leb_le; lia.
Qed.

Lemma isdecimal_not_blank_chr c : isdecimal c = true -> chr_is " " c = false.
Proof.
  intros H. unfold chr_is. chars. destruct (N.eqb_spec c 32) as [-> |]; [| done].
  by rewrite isdecimal_not_blank in H.
Qed.

Lemma dec_decimal c : isdecimal c = true -> decimal c = Some (dec c).
Proof.
  intros (v & Hv & _)%isdecimal_decimal. unfold dec. by rewrite Hv.
Qed.

Lemma lstrip_decimal l : forallb isdecimal l = true -> lstrip l = l.
Proof.
  destruct l as [| c l]; [done |]. simpl.
  intros [H _]%andb_true_iff. by rewrite isdecimal_not_blank_chr.
Qed.

Lemma forallb_rev {A} (p : A -> bool) l :
  forallb p (rev l) = forallb p l.
Proof.
  apply eq_true_iff_eq. rewrite !forallb_forall.
  by setoid_rewrite <- in_rev.
Qed.

Lemma strip_decimal l : forallb isdecimal l = true -> strip l = l.
Proof.
  intros H. unfold strip. rewrite (lstrip_decimal l H).
  rewrite lstrip_decimal by by rewrite forallb_rev.
  apply rev_involutive.
Qed.

Lemma digits_value_decimal l acc :
  forallb isdecimal l = true ->
  digits_value acc l
  = Some (fold_left (fun a c => 10 * a + dec c) l acc).
Proof.
  revert acc. induction l as [| c l IH]; intros acc; simpl; [done |].
  intros [Hc Hl]%andb_true_iff. rewrite (dec_decimal c Hc). by apply IH.
Qed.

Lemma py_int_decimal l :
  l <> [] -> forallb isdecimal l = true -> py_int l = Ok (token_number l).
Proof.
  intros Hne H. unfold py_int, token_number. rewrite (strip_decimal l H).
  destruct l as [| c l]; [done |]. by rewrite (digits_value_decimal _ 0 H).
Qed.

Lemma py_int_day d1 d2 :
  day_token d1 d2 = true -> py_int [d1; d2] = Ok (token_number [d1; d2]).
Proof.
  unfold day_token. rewrite !orb_true_iff, !andb_true_iff.
  intros [[[[H1 H2] | [H1 H2]] | [H1 H2]] | [H1 H2]]; atoms.
  1-3: apply py_int_decimal; [done |]; simpl;
       rewrite ?H2, ?isdecimal_ascii by lia; done.
  subst d1. assert (Hd : isdecimal d2 = true) by (apply isdecimal_ascii; lia).
  unfold py_int, strip. cbn [lstrip chr_is]. simpl.
  rewrite (isdecimal_not_blank_chr d2 Hd). simpl.
  rewrite (isdecimal_not_blank_chr d2 Hd). simpl.
  rewrite (dec_decimal d2 Hd). unfold token_number. simpl.
  unfold dec at 2. simpl. f_equal.
Qed.

Lemma py_int_month m1 m2 :
  month_token m1 m2 = true -> py_int [m1; m2] = Ok (token_number [m1; m2]).
Proof.
  unfold month_token. rewrite !orb_true_iff, !andb_true_iff.
  intros [[H1 H2] | [H1 H2]]; atoms;
    apply py_int_decimal; [done | | done |]; simpl;
    rewrite !isdecimal_ascii by lia; done.
Qed.

(** [strptime] raises nothing but [ValueError]. *)
Lemma py_int_raises s e : py_int s = Raise e -> exists msg, e = ValueError msg.
Proof. unfold py_int. repeat case_match; intros [= <-]; eauto. Qed.

Lemma strptime_date_raises s e :
  strptime_date s = Raise e -> exists msg, e = ValueError msg.
Proof.
  unfold strptime_date.
  destruct (format_regex_match s) as [[[[dg mg] yg] rest] |]; [| naive_solver].
  destruct rest; [| naive_solver].
  destruct (py_int dg) eqn:E1; simpl; [| intros [= <-]; by eapply py_int_raises].
  destruct (py_int mg) eqn:E2; simpl; [| intros [= <-]; by eapply py_int_raises].
  destruct (py_int yg) eqn:E3; simpl; [| intros [= <-]; by eapply py_int_raises].
  apply date_new_raises.
Qed.

Lemma valid_b_spec d : valid_b d = true <-> valid d.
Proof.
  unfold valid_b, valid. rewrite !andb_true_iff, !Z.leb_le. tauto.
Qed.

Lemma date_new_valid_b y m d :
  date_new y m d
  = if valid_b (mkdate y m d) then Ok (mkdate y m d)
    else match date_new y m d with
         | Raise e => Raise e
         | Ok _ => Ok (mkdate y m d)
         end.
Proof.
  destruct (valid_b (mkdate y m d)) eqn:Hv.
  - apply valid_b_spec in Hv. by apply (date_new_valid (mkdate y m d)).
  - destruct (date_new y m d) eqn:E; [| done].
    by apply date_new_inv in E as [-> _].
Qed.

(** The text the pattern accepts, and the date it stands for. *)
Lemma strptime_date_accepted s :
  length s = 10%nat ->
  match accepted_date s with
  | Some d => strptime_date s = Ok d
  | None => exists msg, strptime_date s = Raise (ValueError msg)
  end.
Proof.
  intros Hlen.
  assert (forall d, strptime_date s = Ok d -> accepted_date s = Some d) as Hsound.
  { intros d. unfold strptime_date.
    destruct (format_regex_match s) as [[[[dg mg] yg] rest] |] eqn:Em; [| done].
    destruct rest; [| done].
    apply format_regex_match_full in Em
      as (d1 & d2 & m1 & m2 & y1 & y2 & y3 & y4
          & -> & -> & -> & -> & Hdt & Hmt & Hyt); [| done].
    rewrite (py_int_day _ _ Hdt), (py_int_month _ _ Hmt),
      (py_int_decimal [y1; y2; y3; y4] ltac:(done) Hyt). simpl.
    intros [-> Hv]%date_new_inv. apply valid_b_spec in Hv.
    unfold chr_is. simpl. rewrite Hdt, Hmt. simpl in Hyt. rewrite Hyt. simpl.
    by rewrite Hv. }
  destruct (accepted_date s) as [d |] eqn:Ea.
  - destruct s as [| d1 [| d2 [| dot1 [| m1 [| m2 [| dot2
      [| y1 [| y2 [| y3 [| y4 [| ? ?]]]]]]]]]]]; try done. simpl in Ea.
    destruct (day_token _ _ && _ && _ && _ && _) eqn:Hc; [| done].
    destruct (valid_b _) eqn:Hv; [| done]. simplify_eq.
    apply andb_true_iff in Hc as [Hc Hyt].
    apply andb_true_iff in Hc as [Hc ->%N.eqb_eq].
    apply andb_true_iff in Hc as [Hc Hmt].
    apply andb_true_iff in Hc as [Hdt ->%N.eqb_eq].
    unfold strptime_date. chars.
    assert (shape [d1; d2; 46%N; m1; m2; 46%N; y1; y2; y3; y4]
              [d1; d2] [m1; m2] [y1; y2; y3; y4]) as Hshape.
    { by exists d1, d2, m1, m2, y1, y2, y3, y4. }
    rewrite (format_regex_match_shape _ _ _ _ Hshape).
    rewrite (py_int_day _ _ Hdt), (py_int_month _ _ Hmt),
      (py_int_decimal [y1; y2; y3; y4] ltac:(done) Hyt). simpl.
    apply valid_b_spec in Hv. by apply date_new_valid in Hv.
  - destruct (strptime_date s) as [d | e] eqn:E.
    + by specialize (Hsound d eq_refl).
    + apply strptime_date_raises in E as [msg ->]. eauto.
Qed.

End StrptimeFacts.

(** * The claims *)

(** ** Dates: [find_next_weekday] and [get_upcoming_birthdays] *)

(** C2, as stated, fails on the last days of the calendar: the Monday after
    31.12.9999 is no [date], and the addition raises [OverflowError]. *)
Lemma find_next_weekday_date_max :
  valid (mkdate 9999 12 31)
  /\ find_next_weekday (mkdate 9999 12 31) 0
     = Raise (OverflowError (lit "date value out of range")).
Proof.
  split; [by apply StrptimeFacts.valid_b_spec | vm_compute; reflexivity].
Qed.

(** C2 (amended): for every date [d] and every weekday index [w] in 0..6,
    [find_next_weekday d w] goes ahead [days_ahead d w] days, a number
    between 1 and 7. When that day is still a date (not after 31.12.9999)
    the result is a date strictly after [d], its weekday is [w] and the gap
    is that number, so it is never [d] itself; otherwise the call raises
    [OverflowError]. *)
Theorem find_next_weekday_spec (d : date) (w : Z) :
  valid d -> 0 <= w <= 6 ->
  1 <= days_ahead d w <= 7
  /\ (toordinal d + days_ahead d w <= MAXORDINAL ->
      exists r,
        find_next_weekday d w = Ok r
        /\ valid r /\ date_lt d r = true /\ weekday r = w
        /\ sub_days r d = days_ahead d w)
  /\ (MAXORDINAL < toordinal d + days_ahead d w ->
      find_next_weekday d w
      = Raise (OverflowError (lit "date value out of range"))).
Proof.
  intros Hv Hw. split; [by apply days_ahead_range |]. split.
  - intros Hmax.
    destruct (find_next_weekday_in_range d w Hv Hw Hmax)
      as (r & ? & ? & ? & ? & ? & _).
    eauto 10.
  - by apply find_next_weekday_overflow.
Qed.

(** The Monday after Saturday 28.12.2024 is 30.12.2024. *)
Lemma find_next_weekday_spec_witness :
  valid (mkdate 2024 12 28) /\ 0 <= 0 <= 6
  /\ exists r,
       find_next_weekday (mkdate 2024 12 28) 0 = Ok r
       /\ valid r /\ date_lt (mkdate 2024 12 28) r = true /\ weekday r = 0
       /\ sub_days r (mkdate 2024 12 28) = days_ahead (mkdate 2024 12 28) 0.
Proof.
  assert (Hv : valid (mkdate 2024 12 28))
    by (by apply StrptimeFacts.valid_b_spec).
  assert (Hw : 0 <= 0 <= 6) by lia.
  split; [exact Hv |]. split; [exact Hw |].
  apply (find_next_weekday_spec (mkdate 2024 12 28) 0 Hv Hw).
  vm_compute. discriminate.
Defined.

(** What [weekend_adjusted] does to a date: Saturday and Sunday go to the
    Monday that follows, one or two days later; other days stay. *)
Lemma weekend_adjusted_spec p :
  valid p ->
  (5 <= weekday p ->
   weekday (weekend_adjusted p) = 0
   /\ date_lt p (weekend_adjusted p) = true
   /\ 1 <= sub_days (weekend_adjusted p) p <= 2)
  /\ (weekday p < 5 -> weekend_adjusted p = p).
Proof.
  intros Hv. pose proof (weekday_range p) as Hr. split.
  - intros H5.
    assert (days_ahead p 0 = if weekday p =? 5 then 2 else 1) as Hk.
    { unfold days_ahead. destruct (Z.eqb_spec (weekday p) 5); divmod. }
    assert (toordinal p + days_ahead p 0 <= MAXORDINAL) as Hmax.
    { pose proof (toordinal_range p Hv). rewrite Hk.
      unfold MAXORDINAL, weekday in *.
      destruct (Z.eqb_spec ((toordinal p + 6) mod 7) 5); divmod. }
    destruct (find_next_weekday_in_range p 0 Hv ltac:(lia) Hmax)
      as (r & Hr1 & _ & Hlt & Hwd & Hsub & _).
    pose proof (adjust_for_weekend_spec p Hv) as Ha.
    unfold adjust_for_weekend in Ha.
    destruct (Z.leb_spec 5 (weekday p)); [| lia].
    rewrite Hr1 in Ha. injection Ha as <-.
    rewrite Hsub, Hk. repeat split; try done;
      destruct (weekday p =? 5); lia.
  - intros H5. unfold weekend_adjusted.
    destruct (Z.eqb_spec (weekday p) 5); [lia |].
    destruct (Z.eqb_spec (weekday p) 6); [lia | done].
Qed.

(** C1: [get_upcoming_birthdays] projects every stored birthday, in the
    book's order, onto the current year (onto the next one when the date
    has passed; the first projection that is no date raises); it keeps the
    projected dates whose days-until lies in [[0, days]], the test being made
    on the projected date itself; and it collects, for each date kept, its
    weekend-adjusted date. The adjustment thus never affects inclusion. *)
Theorem get_upcoming_birthdays_spec today days st :
  get_upcoming_birthdays today days st
  = let* ps := mapM_res (projected today) (stored_birthdays st) in
    Ok (map weekend_adjusted (List.filter (in_window today days) ps)).
Proof.
  unfold get_upcoming_birthdays, stored_birthdays.
  by rewrite upcoming_loop_spec.
Qed.

(** C9: when the book holds a record whose birthday is 29 February and the
    current year is no leap year, [get_upcoming_birthdays] raises the
    [ValueError] of the date constructor and returns no list. *)
Theorem get_upcoming_birthdays_leap_day today days st r b :
  In r (values st) -> birthday r = Some b ->
  month (birthday_value b) = 2 -> day (birthday_value b) = 29 ->
  is_leap (year today) = false ->
  exists msg, get_upcoming_birthdays today days st = Raise (ValueError msg).
Proof.
  intros Hin Hb Hm Hd Hleap.
  unfold get_upcoming_birthdays. rewrite upcoming_loop_spec.
  fold (stored_birthdays st).
  assert (In (birthday_value b) (stored_birthdays st)) as Hin'.
  { unfold stored_birthdays. apply list_elem_of_In, list_elem_of_omap.
    exists r. split; [by apply list_elem_of_In | by rewrite Hb]. }
  destruct (mapM_res_raises (projected today)
              (fun e => exists msg, e = ValueError msg)
              _ _ (projected_raises today) Hin'
              (projected_leap_day today _ Hm Hd Hleap))
    as (e & -> & msg & ->).
  by exists msg.
Qed.

(** A book whose only record was born on 29.02.2000, asked on 01.03.2023. *)
Lemma get_upcoming_birthdays_leap_day_witness :
  let r := mkRecord (mkName (lit "Eve")) []
             (Some (mkBirthday (mkdate 2000 2 29))) in
  let st := mkState [r] [(lit "Eve", 0%nat)] in
  exists msg,
    get_upcoming_birthdays (mkdate 2023 3 1) 7 st = Raise (ValueError msg).
Proof.
  intros r st.
  apply (get_upcoming_birthdays_leap_day (mkdate 2023 3 1) 7 st r
           (mkBirthday (mkdate 2000 2 29)));
    [by left | reflexivity | reflexivity | reflexivity | reflexivity].
Defined.

(** A birthday on Saturday 28.12.2024, asked that day with a window of no
    days: the date is within the window and Monday 30.12.2024, which is not,
    is what the list holds. *)
Example get_upcoming_birthdays_saturday :
  get_upcoming_birthdays (mkdate 2024 12 28) 0
    (mkState [mkRecord (mkName (lit "Ann")) []
                (Some (mkBirthday (mkdate 2000 12 28)))]
             [(lit "Ann", 0%nat)])
  = Ok [mkdate 2024 12 30].
Proof. vm_compute. reflexivity. Qed.

(** ** Fields: [Phone] and [Birthday] *)

(** C3, as stated, fails: [str.isdigit] holds of the superscript two
    (U+00B2), which is no decimal digit, so a text of ten of them is
    accepted as a phone. *)
Lemma Phone_init_superscript_digits :
  Phone_init (repeat 178%N 10) = Ok (mkPhone (repeat 178%N 10))
  /\ ~ ten_decimal_digits (repeat 178%N 10).
Proof.
  split; [vm_compute; reflexivity |].
  intros [_ H]. apply Forall_inv in H. vm_compute in H. discriminate.
Qed.

(** C3 (amended): [Phone(p)] succeeds if and only if [p] has exactly 10
    characters and each of them is a digit in the sense of [str.isdigit]
    (the decimal digits of every script, and superscript, subscript and
    circled digits); it then stores [p], which renders back unchanged, and
    otherwise it raises the phone [ValueError]. Every text of exactly 10
    decimal digits [0] to [9] is among those accepted. *)
Theorem Phone_init_spec (p : pystr) :
  Phone_init p
  = (if (length p =? 10)%nat && forallb Unicode.isdigit p
     then Ok (mkPhone p)
     else Raise (ValueError phone_message))
  /\ (forall ph, Phone_init p = Ok ph -> Phone_str ph = p)
  /\ (ten_decimal_digits p -> Phone_init p = Ok (mkPhone p)).
Proof.
  assert (Phone_init p
          = if (length p =? 10)%nat && forallb Unicode.isdigit p
            then Ok (mkPhone p) else Raise (ValueError phone_message)) as E.
  { unfold Phone_init, str_isdigit. destruct p as [| c p]; [done |].
    destruct (forallb Unicode.isdigit (c :: p)),
      (length (c :: p) =? 10)%nat; done. }
  split; [exact E |]. split.
  - rewrite E. destruct (_ && _); [| done]. by intros ph [= <-].
  - intros [Hlen Hall]. rewrite E, Hlen. simpl.
    replace (forallb Unicode.isdigit p) with true; [done |].
    symmetry. apply forallb_forall. intros c Hc.
    rewrite List.Forall_forall in Hall. specialize (Hall c Hc).
    unfold Unicode.isdigit.
    rewrite StrptimeFacts.isdecimal_ascii; [done |].
    unfold is_decimal_digit in Hall. StrptimeFacts.atoms. lia.
Qed.

(** C4, as stated, fails: the pattern [%d] of [strptime] also reads a blank
    followed by a digit as a day, so this text of ten characters whose day
    is not two digits is accepted as 01.01.2020. *)
Lemma Birthday_init_blank_day :
  Birthday_init (lit " 1.01.2020") = Ok (mkBirthday (mkdate 2020 1 1))
  /\ ~ (exists d, parses_DD_MM_YYYY (lit " 1.01.2020") d).
Proof.
  split; [vm_compute; reflexivity |].
  intros (d & d1 & d2 & m1 & m2 & y1 & y2 & y3 & y4 & E & H & _).
  injection E as <- <- <- <- <- <- <- <-.
  apply Forall_inv in H. vm_compute in H. discriminate.
Qed.

Section BirthdayTexts.
Import Unicode Strptime StrptimeFacts.

Lemma accepted_date_length s d :
  accepted_date s = Some d -> length s = 10%nat.
Proof.
  destruct s as [| d1 [| d2 [| dot1 [| m1 [| m2 [| dot2
    [| y1 [| y2 [| y3 [| y4 [| ? ?]]]]]]]]]]]; done.
Qed.

Lemma Birthday_init_accepted s :
  Birthday_init s
  = match accepted_date s with
    | Some d => Ok (mkBirthday d)
    | None => Raise (ValueError date_format_message)
    end.
Proof.
  unfold Birthday_init. destruct (length s =? 10)%nat eqn:Hlen; simpl.
  - apply Nat.eqb_eq in Hlen.
    pose proof (strptime_date_accepted s Hlen) as H.
    destruct (accepted_date s); [by rewrite H |].
    by destruct H as [msg ->].
  - destruct (accepted_date s) eqn:E; [| done].
    apply accepted_date_length in E. rewrite E in Hlen. discriminate.
Qed.

Lemma digit_dec c : is_decimal_digit c = true -> dec c = digit_value c.
Proof.
  intros H. unfold dec, digit_value. by rewrite (in_class_digit c H).
Qed.

Lemma token_number_digits cs :
  Forall (fun c => is_decimal_digit c = true) cs ->
  token_number cs = number cs.
Proof.
  unfold token_number, number. generalize 0.
  induction cs as [| c cs IH]; intros acc Hall; simpl; [done |].
  apply Forall_cons in Hall as [Hc Hall].
  rewrite (digit_dec c Hc). by apply IH.
Qed.

Lemma days_in_month_le y m : 1 <= m <= 12 -> days_in_month y m <= 31.
Proof.
  intros H. unfold days_in_month.
  each_month m H; destruct (is_leap y); simpl; lia.
Qed.

Ltac classes :=
  unfold chr_is, in_class; chars;
  repeat match goal with
  | |- context [N.eqb ?a ?b] => destruct (N.eqb_spec a b)
  | |- context [N.leb ?a ?b] => destruct (N.leb_spec a b)
  end; simpl; try done; try lia.

Lemma day_token_digits d1 d2 :
  is_decimal_digit d1 = true -> is_decimal_digit d2 = true ->
  1 <= number [d1; d2] <= 31 -> day_token d1 d2 = true.
Proof.
  unfold is_decimal_digit, number, digit_value. simpl.
  intros H1 H2 Hn. atoms. unfold day_token.
  rewrite (isdecimal_ascii d2) by lia. classes.
Qed.

Lemma month_token_digits m1 m2 :
  is_decimal_digit m1 = true -> is_decimal_digit m2 = true ->
  1 <= number [m1; m2] <= 12 -> month_token m1 m2 = true.
Proof.
  unfold is_decimal_digit, number, digit_value. simpl.
  intros H1 H2 Hn. atoms. unfold month_token. classes.
Qed.

(** A text that is DD.MM.YYYY to the letter and names a date is
    accepted, and stands for that date. *)
Lemma parses_accepted s d :
  parses_DD_MM_YYYY s d -> accepted_date s = Some d.
Proof.
  intros (d1 & d2 & m1 & m2 & y1 & y2 & y3 & y4 & -> & Hall & -> & Hv).
  pose proof Hv as (_ & Hm & Hd). simpl in Hm, Hd.
  pose proof (days_in_month_le (number [y1; y2; y3; y4]) _ Hm).
  apply valid_b_spec in Hv.
  repeat match goal with
         | H : Forall _ (_ :: _) |- _ => apply Forall_cons in H as [? H]
         end.
  unfold accepted_date.
  rewrite !token_number_digits by (repeat constructor; done).
  rewrite day_token_digits, month_token_digits by (done || lia).
  replace (forallb isdecimal [y1; y2; y3; y4]) with true.
  - unfold chr_is. chars. simpl. by rewrite Hv.
  - simpl. unfold is_decimal_digit in *. atoms.
    by rewrite !isdecimal_ascii by lia.
Qed.

End BirthdayTexts.

(** C4 (amended): [Birthday(s)] succeeds if and only if [s] is a text of
    exactly 10 characters that [strptime] accepts under [%d.%m.%Y] (a day
    of two characters, which may also be a blank and a digit; a dot; a month
    of two digits; a dot; a year of four decimal digits, of any script where
    [\d] allows it) and that stands for a date of the calendar, years 1 to
    9999; the date stored then has the day, month and year read from the
    text; otherwise the fixed [ValueError] is raised. Every text that is
    DD.MM.YYYY to the letter and names a date is accepted with that date. *)
Theorem Birthday_init_spec (s : pystr) :
  Birthday_init s
  = match accepted_date s with
    | Some d => Ok (mkBirthday d)
    | None => Raise (ValueError date_format_message)
    end
  /\ (forall d, accepted_date s = Some d -> length s = 10%nat /\ valid d)
  /\ (forall d, parses_DD_MM_YYYY s d -> Birthday_init s = Ok (mkBirthday d)).
Proof.
  split; [apply Birthday_init_accepted |]. split.
  - intros d Hd. split; [by eapply accepted_date_length |].
    apply StrptimeFacts.valid_b_spec. revert Hd.
    destruct s as [| d1 [| d2 [| dot1 [| m1 [| m2 [| dot2
      [| y1 [| y2 [| y3 [| y4 [| ? ?]]]]]]]]]]]; try done.
    unfold accepted_date. repeat case_match; try done. by intros [= <-].
  - intros d Hd. rewrite Birthday_init_accepted.
    by rewrite (parses_accepted s d Hd).
Qed.

(** Impossible dates and texts of another length are refused. *)
Example Birthday_init_refused :
  Birthday_init (lit "31.02.2020") = Raise (ValueError date_format_message)
  /\ Birthday_init (lit "1.1.2020") = Raise (ValueError date_format_message)
  /\ Birthday_init (lit "ab.cd.efgh") = Raise (ValueError date_format_message)
  /\ Birthday_init (lit "29.02.2020") = Ok (mkBirthday (mkdate 2020 2 29)).
Proof. vm_compute. repeat split. Qed.

(** ** Record: [edit_phone] *)

Section Phones.

Lemma pystr_eqb_true a b : pystr_eqb a b = true <-> a = b.
Proof. unfold pystr_eqb. apply bool_decide_eq_true. Qed.

Lemma pystr_eqb_false a b : pystr_eqb a b = false <-> a <> b.
Proof. unfold pystr_eqb. apply bool_decide_eq_false. Qed.

(** The scan finds the first phone with the value looked for, and that is
    the element [list_remove] drops. *)
Lemma find_phone_in_Some phone l ph :
  find_phone_in phone l = Some ph ->
  exists l1 l2,
    l = l1 ++ ph :: l2 /\ phone_value ph = phone
    /\ (forall q, In q l1 -> phone_value q <> phone)
    /\ list_remove phone l = l1 ++ l2.
Proof.
  induction l as [| q l IH]; simpl; [done |].
  destruct (pystr_eqb (phone_value q) phone) eqn:E.
  - intros [= ->]. apply pystr_eqb_true in E. by exists [], l.
  - intros H. apply pystr_eqb_false in E.
    destruct (IH H) as (l1 & l2 & -> & Hv & Hl1 & Hr).
    exists (q :: l1), l2. repeat split; [done | | by rewrite Hr].
    intros q' [<- | Hin]; [done | by apply Hl1].
Qed.

Lemma find_phone_in_None phone l :
  find_phone_in phone l = None
  <-> forall q, In q l -> phone_value q <> phone.
Proof.
  induction l as [| q l IH]; simpl; [by split |].
  destruct (pystr_eqb (phone_value q) phone) eqn:E.
  - apply pystr_eqb_true in E. split; [done |].
    intros H. by destruct (H q (or_introl eq_refl)).
  - apply pystr_eqb_false in E. rewrite IH. split.
    + intros H q' [<- | Hin]; [done | by apply H].
    + intros H q' Hin. apply H. by right.
Qed.

Lemma Phone_init_raises phone e :
  Phone_init phone = Raise e -> e = ValueError phone_message.
Proof. unfold Phone_init. by destruct (_ || _); intros [= <-]. Qed.

End Phones.

(** C5: on a record whose phone list holds [old_phone], [edit_phone] first
    drops one entry, the first whose value is [old_phone], and keeps the
    others in their order; then it validates [new_phone]: a valid one is
    appended, and an invalid one makes the call raise the phone
    [ValueError] with the old phone already gone from the list. *)
Theorem edit_phone_found old_phone new_phone self :
  (exists q, In q (phones self) /\ phone_value q = old_phone) ->
  exists l1 ph l2,
    phones self = l1 ++ ph :: l2 /\ phone_value ph = old_phone
    /\ (forall q, In q l1 -> phone_value q <> old_phone)
    /\ edit_phone old_phone new_phone self
       = match Phone_init new_phone with
         | Ok p => (set_phones (l1 ++ l2 ++ [p]) self, Ok tt)
         | Raise _ =>
             (set_phones (l1 ++ l2) self, Raise (ValueError phone_message))
         end.
Proof.
  intros (q & Hin & Hq).
  destruct (find_phone_in old_phone (phones self)) as [ph |] eqn:Hfind.
  - destruct (find_phone_in_Some _ _ _ Hfind) as (l1 & l2 & Hl & Hv & Hl1 & Hr).
    exists l1, ph, l2. repeat split; try done.
    unfold edit_phone, remove_phone, find_phone. rewrite Hfind, Hv, Hr.
    unfold add_phone. simpl.
    destruct (Phone_init new_phone) as [p | e] eqn:Hp.
    + by rewrite <- app_assoc.
    + by rewrite (Phone_init_raises _ _ Hp).
  - rewrite find_phone_in_None in Hfind. by destruct (Hfind q Hin).
Qed.

(** Editing the first of two equal phones with a text that is no phone. *)
Lemma edit_phone_found_witness :
  let self := mkRecord (mkName (lit "Ann"))
                [mkPhone (lit "1111111111"); mkPhone (lit "1111111111")]
                None in
  exists l1 ph l2,
    phones self = l1 ++ ph :: l2 /\ phone_value ph = lit "1111111111"
    /\ (forall q, In q l1 -> phone_value q <> lit "1111111111")
    /\ edit_phone (lit "1111111111") (lit "12") self
       = match Phone_init (lit "12") with
         | Ok p => (set_phones (l1 ++ l2 ++ [p]) self, Ok tt)
         | Raise _ =>
             (set_phones (l1 ++ l2) self, Raise (ValueError phone_message))
         end.
Proof.
  intros self.
  apply (edit_phone_found (lit "1111111111") (lit "12") self).
  exists (mkPhone (lit "1111111111")). split; [by left | reflexivity].
Defined.

(** C6: on a record whose phone list does not hold [old_phone],
    [edit_phone] raises [ValueError("Phone number is incorrect")] and
    leaves the record, its phone list included, as it was, whatever
    [new_phone] is. *)
Theorem edit_phone_missing old_phone new_phone self :
  (forall q, In q (phones self) -> phone_value q <> old_phone) ->
  edit_phone old_phone new_phone self
  = (self, Raise (ValueError (lit "Phone number is incorrect"))).
Proof.
  intros H. apply find_phone_in_None in H.
  unfold edit_phone, find_phone. by rewrite H.
Qed.

Lemma edit_phone_missing_witness :
  let self := mkRecord (mkName (lit "Ann")) [mkPhone (lit "1111111111")] None in
  edit_phone (lit "9999999999") (lit "2222222222") self
  = (self, Raise (ValueError (lit "Phone number is incorrect"))).
Proof.
  intros self.
  apply (edit_phone_missing (lit "9999999999") (lit "2222222222") self).
  intros q [<- | []]. vm_compute. discriminate.
Defined.

(** The example of the specification: one phone edited to another. *)
Example edit_phone_example :
  edit_phone (lit "1111111111") (lit "2222222222")
    (mkRecord (mkName (lit "Ann")) [mkPhone (lit "1111111111")] None)
  = (mkRecord (mkName (lit "Ann")) [mkPhone (lit "2222222222")] None, Ok tt).
Proof. vm_compute. reflexivity. Qed.

(** ** Handlers *)

(** C7 (the code departs from it): a handler that gets too few tokens fails
    in its unpacking assignment, which raises [ValueError] and not
    [IndexError]; [input_error] therefore returns the text of that error,
    and its [IndexError] branch with "Give me phone and name please" is
    never reached. No error leaves the handler. *)
Theorem too_few_tokens_message (book : State) :
  add_contact [lit "Alice"] book
  = Some (book, Ok (VStr (lit
      "not enough values to unpack (expected at least 2, got 1)")))
  /\ add_contact [] book
     = Some (book, Ok (VStr (lit
         "not enough values to unpack (expected at least 2, got 0)")))
  /\ change_contact [lit "Alice"; lit "1234567890"] book
     = Some (book, Ok (VStr (lit
         "not enough values to unpack (expected 3, got 2)")))
  /\ phone [] book
     = Some (book, Ok (VStr (lit
         "not enough values to unpack (expected 1, got 0)")))
  /\ add_birthday_handler [lit "Alice"] book
     = Some (book, Ok (VStr (lit
         "not enough values to unpack (expected 2, got 1)")))
  /\ show_birthday [] book
     = Some (book, Ok (VStr (lit
         "not enough values to unpack (expected 1, got 0)")))
  /\ lit "not enough values to unpack (expected at least 2, got 1)"
     <> lit "Give me phone and name please".
Proof.
  repeat split; try (vm_compute; reflexivity).
  vm_compute. discriminate.
Qed.

(** For [add] this holds of every argument list of fewer than two tokens. *)
Lemma add_contact_too_few args book :
  (length args < 2)%nat ->
  add_contact args book
  = Some (book, Ok (VStr (lit "not enough values to unpack (expected at least 2, got "
                          ++ str_of_nat (length args) ++ lit ")"))).
Proof.
  intros H. destruct args as [| a [| b args]]; simpl in H; try lia;
    reflexivity.
Qed.

Section AddContact.

Lemma dict_get_set {V} k (v : V) d : dict_get k (dict_set k v d) = Some v.
Proof.
  induction d as [| [k' v'] d IH]; simpl.
  - by rewrite (proj2 (pystr_eqb_true k k)).
  - destruct (pystr_eqb k' k) eqn:E; simpl.
    + by rewrite (proj2 (pystr_eqb_true k k)).
    + by rewrite E.
Qed.

Lemma dict_get_set_ne {V} k k' (v : V) d :
  k <> k' -> dict_get k' (dict_set k v d) = dict_get k' d.
Proof.
  intros Hne. induction d as [| [k0 v0] d IH]; simpl.
  - by rewrite (proj2 (pystr_eqb_false k k')).
  - destruct (pystr_eqb k0 k) eqn:E; simpl.
    + apply pystr_eqb_true in E as ->.
      by rewrite (proj2 (pystr_eqb_false k k')).
    + by rewrite IH.
Qed.

(** Assigning to a key that is absent appends it. *)
Lemma dict_set_absent {V} k (v : V) d :
  dict_get k d = None -> dict_set k v d = d ++ [(k, v)].
Proof.
  induction d as [| [k' v'] d IH]; simpl; [done |].
  destruct (pystr_eqb k' k); [done |]. intros H. by rewrite IH.
Qed.

Lemma new_Record_lookup nm st :
  heap (fst (new_Record nm st)) !! snd (new_Record nm st)
  = Some (Record_init nm).
Proof. simpl. by rewrite list_lookup_middle. Qed.

End AddContact.

(** C10, as stated, fails for the empty text: it is no phone, but the
    handler skips the phone when the text is empty and answers
    "Contact added.". *)
Lemma add_contact_empty_phone :
  find (lit "Bob") empty_book = None
  /\ Phone_init [] = Raise (ValueError phone_message)
  /\ add_contact [lit "Bob"; []] empty_book
     = Some (mkState [Record_init (lit "Bob")] [(lit "Bob", 0%nat)],
             Ok (VStr (lit "Contact added."))).
Proof. repeat split. Qed.

(** C10 (amended): when the add handler gets a name absent from the book
    and a phone text that is not empty and fails the phone validation, it
    returns the validation message as its result, and the book has changed
    all the same: the new record, without a phone, is in it under the
    name. *)
Theorem add_contact_invalid_phone nm phone rest book :
  find nm book = None -> phone <> [] ->
  (exists e, Phone_init phone = Raise e) ->
  let a := length (heap book) in
  let book' := mkState (heap book ++ [Record_init nm])
                       (data book ++ [(nm, a)]) in
  add_contact (nm :: phone :: rest) book
  = Some (book', Ok (VStr phone_message))
  /\ find nm book' = Some a
  /\ heap book' !! a = Some (Record_init nm).
Proof.
  intros Hfind Hne [e He] a book'.
  pose proof (Phone_init_raises _ _ He) as ->.
  assert (heap book' !! a = Some (Record_init nm)) as Hlook
    by (by apply list_lookup_middle).
  split; [| split; [| done]].
  - unfold add_contact, add_contact_body, input_error. rewrite Hfind.
    unfold find in Hfind. simpl.
    unfold add_record. simpl. rewrite list_lookup_middle by done. simpl.
    rewrite (dict_set_absent _ _ _ Hfind).
    destruct phone as [| c cs]; [done |].
    unfold call. simpl. fold a. fold book' in Hlook. simpl in Hlook.
    rewrite Hlook. unfold add_phone. rewrite He. simpl.
    by rewrite list_insert_id.
  - unfold find, book'. simpl.
    rewrite <- (dict_set_absent nm a (data book) Hfind).
    apply dict_get_set.
Qed.

Lemma add_contact_invalid_phone_witness :
  add_contact [lit "Bob"; lit "12345"] empty_book
  = Some (mkState [Record_init (lit "Bob")] [(lit "Bob", 0%nat)],
          Ok (VStr phone_message))
  /\ find (lit "Bob") (mkState [Record_init (lit "Bob")] [(lit "Bob", 0%nat)])
     = Some 0%nat
  /\ [Record_init (lit "Bob")] !! 0%nat = Some (Record_init (lit "Bob")).
Proof.
  apply (add_contact_invalid_phone (lit "Bob") (lit "12345") [] empty_book).
  - reflexivity.
  - discriminate.
  - exists (ValueError phone_message). reflexivity.
Defined.

(** ** The invariant of the collection *)

Section Invariant.

Lemma dict_set_In {V} k (v : V) d k' v' :
  In (k', v') (dict_set k v d) -> (k', v') = (k, v) \/ In (k', v') d.
Proof.
  induction d as [| [k0 v0] d IH]; simpl.
  - intros [[= <- <-] | []]. by left.
  - destruct (pystr_eqb k0 k); simpl.
    + intros [[= <- <-] | H]; [by left | by right; right].
    + intros [H | H]; [by right; left |].
      destruct (IH H); [by left | by right; right].
Qed.

Lemma dict_del_In {V} k (d : list (pystr * V)) kv :
  In kv (dict_del k d) -> In kv d.
Proof.
  induction d as [| [k0 v0] d IH]; simpl; [done |].
  destruct (pystr_eqb k0 k); simpl; [by right |].
  intros [H | H]; [by left | right; by apply IH].
Qed.

Lemma dict_get_In {V} k (d : list (pystr * V)) v :
  dict_get k d = Some v -> In (k, v) d.
Proof.
  induction d as [| [k0 v0] d IH]; simpl; [done |].
  destruct (pystr_eqb k0 k) eqn:E.
  - apply pystr_eqb_true in E as ->. intros [= ->]. by left.
  - intros H. right. by apply IH.
Qed.

Lemma add_phone_keeps_name p : keeps_name (add_phone p).
Proof. intros r. unfold add_phone. by destruct (Phone_init p). Qed.

Lemma remove_phone_keeps_name p : keeps_name (remove_phone p).
Proof. intros r. unfold remove_phone. by destruct (find_phone p r). Qed.

Lemma edit_phone_keeps_name o n : keeps_name (edit_phone o n).
Proof.
  intros r. unfold edit_phone. destruct (find_phone o r); [| done].
  pose proof (remove_phone_keeps_name o r) as H1.
  destruct (remove_phone o r) as [r1 out]. simpl in H1.
  by rewrite add_phone_keeps_name.
Qed.

Lemma add_birthday_keeps_name s : keeps_name (add_birthday s).
Proof. intros r. unfold add_birthday. by destruct (Birthday_init s). Qed.

Lemma call_preserves {A} a (m : method A) st st' out :
  keeps_name m -> call a m st = Some (st', out) ->
  name_is_key st -> name_is_key st'.
Proof.
  intros Hm Hcall Hinv. unfold call in Hcall.
  destruct (heap st !! a) as [r |] eqn:Hr; [| done].
  specialize (Hm r). destruct (m r) as [r' out']. simpl in Hm.
  injection Hcall as <- <-. intros k a' Hin. simpl in *.
  destruct (Hinv k a' Hin) as (r0 & Hr0 & Hk).
  destruct (decide (a = a')) as [<- | Hne].
  - exists r'. rewrite list_lookup_insert_eq by by eapply lookup_lt_Some.
    split; [done |]. congruence.
  - exists r0. by rewrite list_lookup_insert_ne.
Qed.

Lemma new_Record_preserves nm st :
  name_is_key st -> name_is_key (fst (new_Record nm st)).
Proof.
  intros Hinv k a Hin. simpl in *.
  destruct (Hinv k a Hin) as (r & Hr & Hk). exists r.
  split; [| done]. by apply lookup_app_l_Some.
Qed.

Lemma add_record_preserves a st st' :
  add_record a st = Some st' -> name_is_key st -> name_is_key st'.
Proof.
  unfold add_record. destruct (heap st !! a) as [r |] eqn:Hr; [| done].
  intros [= <-] Hinv k a' Hin. simpl in *.
  apply dict_set_In in Hin as [[= -> ->] | Hin]; [by exists r |].
  by apply Hinv.
Qed.

Lemma delete_preserves nm st : name_is_key st -> name_is_key (delete nm st).
Proof.
  intros Hinv. unfold delete. destruct (dict_get nm (data st)); [| done].
  intros k a Hin. simpl in *. apply dict_del_In in Hin. by apply Hinv.
Qed.

Lemma input_error_state func st st' out :
  input_error func st = Some (st', out) ->
  exists out', func st = Some (st', out').
Proof.
  unfold input_error. destruct (func st) as [[st1 [v | e]] |]; [| | done].
  - intros [= <- <-]. eauto.
  - destruct e; intros [= <- <-]; eauto.
Qed.

Lemma handler_call_preserves {A} v a (m : method A) st st' out :
  keeps_name m ->
  returning v <$> call a m st = Some (st', out) ->
  name_is_key st -> name_is_key st'.
Proof.
  intros Hm H Hinv. destruct (call a m st) as [[st1 o] |] eqn:Hc; [| done].
  assert (st' = st1) as ->
    by (destruct o; simpl in H; by injection H as <- _).
  by eapply call_preserves.
Qed.

Lemma add_contact_preserves args st st' out :
  add_contact args st = Some (st', out) ->
  name_is_key st -> name_is_key st'.
Proof.
  intros (out' & H)%input_error_state Hinv. unfold add_contact_body in H.
  destruct args as [| nm [| ph rest]]; try by injection H as <- _.
  destruct (find nm st) as [a |] eqn:Hfind; simpl in H.
  - destruct ph; [by injection H as <- _ |].
    eapply handler_call_preserves; [apply add_phone_keeps_name | done | done].
  - destruct (add_record _ _) as [st1 |] eqn:Hadd; [| done]. simpl in H.
    assert (name_is_key st1) as Hinv1.
    { eapply add_record_preserves; [done |].
      by apply (new_Record_preserves nm). }
    destruct ph; [by injection H as <- _ |].
    eapply handler_call_preserves; [apply add_phone_keeps_name | done | done].
Qed.

Lemma change_contact_preserves args st st' out :
  change_contact args st = Some (st', out) ->
  name_is_key st -> name_is_key st'.
Proof.
  intros (out' & H)%input_error_state Hinv. unfold change_contact_body in H.
  destruct args as [| nm [| o [| n [| ? ?]]]]; try by injection H as <- _.
  destruct (find nm st) as [a |]; [| by injection H as <- _].
  eapply handler_call_preserves; [apply edit_phone_keeps_name | done | done].
Qed.

Lemma add_birthday_handler_preserves args st st' out :
  add_birthday_handler args st = Some (st', out) ->
  name_is_key st -> name_is_key st'.
Proof.
  intros (out' & H)%input_error_state Hinv. unfold add_birthday_body in H.
  destruct args as [| nm [| s [| ? ?]]]; try by injection H as <- _.
  destruct (find nm st) as [a |]; [| by injection H as <- _].
  eapply handler_call_preserves; [apply add_birthday_keeps_name | done | done].
Qed.

Lemma step_preserves o st st' :
  step o st = Some st' -> name_is_key st -> name_is_key st'.
Proof.
  destruct o; simpl; intros H Hinv.
  - injection H as <-. by apply new_Record_preserves.
  - destruct (call a (add_phone p) st) as [[st1 out] |] eqn:E; [| done].
    injection H as <-. eapply call_preserves; [apply add_phone_keeps_name | done..].
  - destruct (call a (remove_phone p) st) as [[st1 out] |] eqn:E; [| done].
    injection H as <-.
    eapply call_preserves; [apply remove_phone_keeps_name | done..].
  - destruct (call a (edit_phone _ _) st) as [[st1 out] |] eqn:E; [| done].
    injection H as <-.
    eapply call_preserves; [apply edit_phone_keeps_name | done..].
  - destruct (call a (add_birthday s) st) as [[st1 out] |] eqn:E; [| done].
    injection H as <-.
    eapply call_preserves; [apply add_birthday_keeps_name | done..].
  - by eapply add_record_preserves.
  - by injection H as <-.
  - injection H as <-. by apply delete_preserves.
  - by injection H as <-.
  - destruct (add_contact args st) as [[st1 out] |] eqn:E; [| done].
    injection H as <-. by eapply add_contact_preserves.
  - destruct (change_contact args st) as [[st1 out] |] eqn:E; [| done].
    injection H as <-. by eapply change_contact_preserves.
  - destruct (add_birthday_handler args st) as [[st1 out] |] eqn:E; [| done].
    injection H as <-. by eapply add_birthday_handler_preserves.
Qed.

Lemma run_preserves ops st st' :
  run ops st = Some st' -> name_is_key st -> name_is_key st'.
Proof.
  revert st. induction ops as [| o ops IH]; intros st; simpl.
  - by intros [= <-].
  - destruct (step o st) as [st1 |] eqn:E; [| done]. simpl.
    intros H Hinv. apply (IH st1 H). by eapply step_preserves.
Qed.

Lemma name_is_key_empty : name_is_key empty_book.
Proof. by intros k a []. Qed.

End Invariant.

(** C8: in every state reached from the empty book by the public
    operations (creating records, the methods of a record, [add_record],
    [find], [delete], [get_upcoming_birthdays], and the handlers that
    change the book), every value stored in the book has its key for name.
    [add_record] files the record under the record's own name, whatever was
    there before (the last write wins), leaves the other keys as they were,
    and keeps the invariant. *)
Theorem name_is_key_reachable ops st :
  run ops empty_book = Some st ->
  name_is_key st
  /\ (forall a r, heap st !! a = Some r ->
      exists st',
        add_record a st = Some st'
        /\ find (name_value (name r)) st' = Some a
        /\ (forall k, k <> name_value (name r) -> find k st' = find k st)
        /\ name_is_key st').
Proof.
  intros Hrun.
  assert (name_is_key st) as Hinv
    by (eapply run_preserves; [done | apply name_is_key_empty]).
  split; [done |]. intros a r Hr.
  exists (mkState (heap st) (dict_set (name_value (name r)) a (data st))).
  assert (add_record a st
          = Some (mkState (heap st)
                    (dict_set (name_value (name r)) a (data st)))) as Hadd
    by (unfold add_record; by rewrite Hr).
  split; [done |]. split; [apply dict_get_set |]. split.
  - intros k Hk. unfold find. simpl. by apply dict_get_set_ne.
  - by eapply add_record_preserves.
Qed.

(** A run that adds a contact through the handler, files a second record
    under the same name by [add_record], asks for the birthdays and deletes
    another name. *)
Lemma name_is_key_reachable_witness :
  let ops := [OpAddContact [lit "Ann"; lit "1234567890"];
              OpRecord (lit "Ann"); OpAddRecord 1%nat;
              OpUpcoming (mkdate 2024 12 28) 7; OpFind (lit "Ann");
              OpDelete (lit "Bob")] in
  let st := mkState [mkRecord (mkName (lit "Ann"))
                       [mkPhone (lit "1234567890")] None;
                     Record_init (lit "Ann")]
                    [(lit "Ann", 1%nat)] in
  run ops empty_book = Some st /\ name_is_key st.
Proof.
  intros ops st.
  assert (run ops empty_book = Some st) as Hrun by reflexivity.
  split; [exact Hrun |].
  exact (proj1 (name_is_key_reachable ops st Hrun)).
Defined.

(** On the states of such runs every reference of the book has its object,
    so that the handlers are defined. *)
Lemma reachable_wf ops st args :
  run ops empty_book = Some st ->
  is_Some (add_contact args st) /\ is_Some (change_contact args st)
  /\ is_Some (phone args st) /\ is_Some (add_birthday_handler args st)
  /\ is_Some (show_birthday args st).
Proof.
  intros Hrun.
  assert (name_is_key st) as Hinv
    by (eapply run_preserves; [done | apply name_is_key_empty]).
  assert (forall nm a, find nm st = Some a -> is_Some (heap st !! a)) as Hobj.
  { intros nm a Hf. apply dict_get_In in Hf.
    destruct (Hinv _ _ Hf) as (r & Hr & _). by exists r. }
  assert (forall A (m : method A) v nm a, find nm st = Some a ->
            is_Some (returning v <$> call a m st)) as Hcall.
  { intros A m v nm a Hf. destruct (Hobj nm a Hf) as [r Hr].
    unfold call. rewrite Hr. by destruct (m r). }
  assert (forall f, is_Some (f st) -> is_Some (input_error f st)) as Hwrap.
  { intros f [[st1 [v | e]] Hf]; unfold input_error; rewrite Hf;
      [done | by destruct e]. }
  repeat split; apply Hwrap.
  - unfold add_contact_body. destruct args as [| nm [| ph rest]]; try done.
    destruct (find nm st) as [a |] eqn:Hf; simpl.
    + destruct ph; [done | by eapply Hcall].
    + unfold add_record. simpl. rewrite list_lookup_middle by done. simpl.
      destruct ph; [done |]. unfold call. simpl.
      rewrite list_lookup_middle by done. by destruct (add_phone _ _).
  - unfold change_contact_body.
    destruct args as [| nm [| o [| n [| ? ?]]]]; try done.
    destruct (find nm st) as [a |] eqn:Hf; [by eapply Hcall | done].
  - unfold phone_body. destruct args as [| nm [| ? ?]]; try done.
    by destruct (find nm st).
  - unfold add_birthday_body. destruct args as [| nm [| s [| ? ?]]]; try done.
    destruct (find nm st) as [a |] eqn:Hf; [by eapply Hcall | done].
  - unfold show_birthday_body. destruct args as [| nm [| ? ?]]; try done.
    destruct (find nm st) as [a |] eqn:Hf; [| done].
    destruct (Hobj nm a Hf) as [r ->]. simpl. by destruct (birthday r).
Qed.

(** * Further properties of the code *)

(** ** Record: looking up, adding and removing phones *)

(** X1: [find_phone] returns the first phone of the list whose value is
    the text looked for, and [None] exactly when no phone of the record has
    that value. *)
Theorem find_phone_first phone self :
  match find_phone phone self with
  | Some ph =>
      exists l1 l2,
        phones self = l1 ++ ph :: l2 /\ phone_value ph = phone
        /\ forall q, In q l1 -> phone_value q <> phone
  | None => forall q, In q (phones self) -> phone_value q <> phone
  end.
Proof.
  unfold find_phone.
  destruct (find_phone_in phone (phones self)) as [ph |] eqn:E.
  - destruct (find_phone_in_Some _ _ _ E) as (l1 & l2 & ? & ? & ? & _).
    by exists l1, l2.
  - by apply find_phone_in_None.
Qed.

Lemma find_phone_in_app phone l1 l2 :
  find_phone_in phone (l1 ++ l2)
  = match find_phone_in phone l1 with
    | Some ph => Some ph
    | None => find_phone_in phone l2
    end.
Proof.
  induction l1 as [| q l1 IH]; simpl; [done |].
  by destruct (pystr_eqb (phone_value q) phone).
Qed.

Lemma Phone_init_Ok phone p :
  Phone_init phone = Ok p ->
  p = mkPhone phone /\ length phone = 10%nat
  /\ forallb Unicode.isdigit phone = true.
Proof.
  unfold Phone_init, str_isdigit. destruct phone as [| c cs]; [done |].
  destruct (forallb Unicode.isdigit (c :: cs)) eqn:E1; [| done].
  destruct (length (c :: cs) =? 10)%nat eqn:E2; [| done].
  simpl. intros [= <-]. apply Nat.eqb_eq in E2. done.
Qed.

(** X2: [add_phone] with a text [Phone] accepts appends the phone to the
    end of the list; the phone is then found by [find_phone] and the lookup
    of every other text is as before. With a text [Phone] refuses, it
    raises the phone [ValueError] and leaves the record as it was. *)
Theorem add_phone_spec phone self :
  match Phone_init phone with
  | Ok _ =>
      add_phone phone self
      = (set_phones (phones self ++ [mkPhone phone]) self, Ok tt)
      /\ (exists ph, find_phone phone (fst (add_phone phone self)) = Some ph
                     /\ phone_value ph = phone)
      /\ (forall q, q <> phone ->
          find_phone q (fst (add_phone phone self)) = find_phone q self)
  | Raise _ =>
      add_phone phone self = (self, Raise (ValueError phone_message))
  end.
Proof.
  unfold add_phone. destruct (Phone_init phone) as [p | e] eqn:E.
  - apply Phone_init_Ok in E as (-> & _ & _). split; [done |]. split.
    + unfold find_phone. simpl. rewrite find_phone_in_app.
      destruct (find_phone_in phone (phones self)) as [ph |] eqn:Hf.
      * exists ph. split; [done |].
        by destruct (find_phone_in_Some _ _ _ Hf) as (? & ? & ? & ? & _).
      * simpl. rewrite (proj2 (pystr_eqb_true phone phone)) by done. eauto.
    + intros q Hq. unfold find_phone. simpl. rewrite find_phone_in_app.
      destruct (find_phone_in q (phones self)); [done |]. simpl.
      by rewrite (proj2 (pystr_eqb_false phone q)).
  - by rewrite (Phone_init_raises _ _ E).
Qed.

Lemma count_phone_app v l1 l2 :
  count_phone v (l1 ++ l2) = (count_phone v l1 + count_phone v l2)%nat.
Proof. unfold count_phone. by rewrite List.filter_app, length_app. Qed.

Lemma count_phone_remove v phone l :
  count_phone v (list_remove phone l)
  = (count_phone v l
     - (if pystr_eqb phone v
        then match find_phone_in phone l with Some _ => 1 | None => 0 end
        else 0))%nat.
Proof.
  induction l as [| q l IH]; simpl.
  - by destruct (pystr_eqb phone v).
  - destruct (pystr_eqb (phone_value q) phone) eqn:E.
    + apply pystr_eqb_true in E. unfold count_phone. simpl. rewrite E.
      destruct (pystr_eqb phone v); simpl; lia.
    + unfold count_phone in *. simpl.
      destruct (pystr_eqb (phone_value q) v) eqn:Ev; simpl; rewrite IH.
      * apply pystr_eqb_true in Ev. apply pystr_eqb_false in E.
        rewrite (proj2 (pystr_eqb_false phone v)) by congruence. lia.
      * done.
Qed.

(** X3: [remove_phone] never raises. It drops one phone with the given
    value when the record has one (the number of phones with that value goes
    down by one, the numbers of the others stay, the order is kept) and
    leaves the record as it was when it has none; name and birthday are
    untouched. *)
Theorem remove_phone_spec phone self :
  exists self',
    remove_phone phone self = (self', Ok tt)
    /\ name self' = name self /\ birthday self' = birthday self
    /\ (forall v, count_phone v (phones self')
          = (count_phone v (phones self)
             - (if pystr_eqb phone v
                then match find_phone phone self with
                     | Some _ => 1
                     | None => 0
                     end
                else 0))%nat)
    /\ (find_phone phone self = None -> self' = self)
    /\ sublist (phones self') (phones self).
Proof.
  unfold remove_phone, find_phone.
  destruct (find_phone_in phone (phones self)) as [ph |] eqn:E.
  - destruct (find_phone_in_Some _ _ _ E) as (l1 & l2 & Hl & Hv & _ & Hr).
    eexists. split; [done |]. simpl. rewrite Hv.
    repeat split; try done.
    + intros v. rewrite count_phone_remove. by rewrite E.
    + rewrite Hr, Hl. apply sublist_app; [done |]. by apply sublist_cons.
  - exists self. repeat split; try done.
    intros v. destruct (pystr_eqb phone v); lia.
Qed.

(** ** Validated fields *)

Section Fields.

Lemma accepted_date_valid s d : accepted_date s = Some d -> valid d.
Proof.
  intros Hd. apply StrptimeFacts.valid_b_spec. revert Hd.
  destruct s as [| d1 [| d2 [| dot1 [| m1 [| m2 [| dot2
    [| y1 [| y2 [| y3 [| y4 [| ? ?]]]]]]]]]]]; try done.
  unfold accepted_date. repeat case_match; try done. by intros [= <-].
Qed.

Lemma Birthday_init_Ok s b :
  Birthday_init s = Ok b ->
  accepted_date s = Some (birthday_value b) /\ valid (birthday_value b).
Proof.
  rewrite Birthday_init_accepted.
  destruct (accepted_date s) as [d |] eqn:E; [| done].
  intros [= <-]. split; [done | by eapply accepted_date_valid].
Qed.

Lemma Birthday_init_raises s e :
  Birthday_init s = Raise e -> e = ValueError date_format_message.
Proof.
  rewrite Birthday_init_accepted. destruct (accepted_date s); [done |].
  by intros [= <-].
Qed.

Lemma list_remove_sublist phone l : sublist (list_remove phone l) l.
Proof.
  induction l as [| q l IH]; simpl; [done |].
  destruct (pystr_eqb (phone_value q) phone).
  - by apply sublist_cons.
  - by apply sublist_skip.
Qed.

Lemma add_phone_keeps_ok p : keeps_ok (add_phone p).
Proof.
  intros r [Hp Hb]. unfold add_phone.
  destruct (Phone_init p) as [ph |] eqn:E; [| done].
  apply Phone_init_Ok in E as (-> & Hl & Hd). split; [| done]. simpl.
  apply Forall_app. split; [done |]. by repeat constructor.
Qed.

Lemma remove_phone_keeps_ok p : keeps_ok (remove_phone p).
Proof.
  intros r [Hp Hb]. unfold remove_phone.
  destruct (find_phone p r); [| done]. split; [| done]. simpl.
  rewrite Forall_forall in *. intros x Hx. apply Hp.
  by eapply sublist_subseteq; [apply list_remove_sublist |].
Qed.

Lemma edit_phone_keeps_ok o n : keeps_ok (edit_phone o n).
Proof.
  intros r Hr. unfold edit_phone. destruct (find_phone o r); [| done].
  pose proof (remove_phone_keeps_ok o r Hr) as H1.
  destruct (remove_phone o r) as [r1 out]. by apply add_phone_keeps_ok.
Qed.

Lemma add_birthday_keeps_ok s : keeps_ok (add_birthday s).
Proof.
  intros r [Hp Hb]. unfold add_birthday.
  destruct (Birthday_init s) as [b |] eqn:E; [| done].
  apply Birthday_init_Ok in E as [_ Hv]. split; [done |]. simpl.
  by intros b' [= <-].
Qed.

Lemma call_fields {A} a (m : method A) st st' out :
  keeps_ok m -> call a m st = Some (st', out) ->
  fields_valid st -> fields_valid st' /\ data st' = data st.
Proof.
  intros Hm Hcall Hinv. unfold call in Hcall.
  destruct (heap st !! a) as [r |] eqn:Hr; [| done].
  pose proof (Hm r) as Hm'. destruct (m r) as [r' out'].
  injection Hcall as <- <-. split; [| done]. unfold fields_valid in *. simpl.
  apply Forall_insert; [done |]. apply Hm'.
  by eapply Forall_lookup_1.
Qed.

End Fields.

(** ** The states of the program *)

Section Moves.

Lemma handler_call_basic {A} v a (m : method A) st st' out :
  record_method A m ->
  returning v <$> call a m st = Some (st', out) -> basic st st'.
Proof.
  intros Hm H. destruct (call a m st) as [[st1 o] |] eqn:Hc; [| done].
  assert (st' = st1) as ->
    by (destruct o; simpl in H; by injection H as <- _).
  by eapply basic_call.
Qed.

Lemma add_contact_moves args st st' out :
  add_contact args st = Some (st', out) -> rtc basic st st'.
Proof.
  intros (out' & H)%input_error_state. unfold add_contact_body in H.
  destruct args as [| nm [| ph rest]]; try by injection H as <- _.
  destruct (find nm st) as [a |] eqn:Hfind; simpl in H.
  - destruct ph; [by injection H as <- _ |].
    apply rtc_once. eapply handler_call_basic; [constructor | done].
  - destruct (add_record _ _) as [st1 |] eqn:Hadd; [| done]. simpl in H.
    eapply rtc_l; [apply (basic_new nm) |].
    eapply rtc_l; [eapply basic_add; exact Hadd |].
    destruct ph; [by injection H as <- _ |].
    apply rtc_once. eapply handler_call_basic; [constructor | done].
Qed.

Lemma change_contact_moves args st st' out :
  change_contact args st = Some (st', out) -> rtc basic st st'.
Proof.
  intros (out' & H)%input_error_state. unfold change_contact_body in H.
  destruct args as [| nm [| o [| n [| ? ?]]]]; try by injection H as <- _.
  destruct (find nm st) as [a |]; [| by injection H as <- _].
  apply rtc_once. eapply handler_call_basic; [constructor | done].
Qed.

Lemma add_birthday_handler_moves args st st' out :
  add_birthday_handler args st = Some (st', out) -> rtc basic st st'.
Proof.
  intros (out' & H)%input_error_state. unfold add_birthday_body in H.
  destruct args as [| nm [| s [| ? ?]]]; try by injection H as <- _.
  destruct (find nm st) as [a |]; [| by injection H as <- _].
  apply rtc_once. eapply handler_call_basic; [constructor | done].
Qed.

Lemma step_moves o st st' : step o st = Some st' -> rtc basic st st'.
Proof.
  destruct o; simpl; intros H.
  - injection H as <-. apply rtc_once, basic_new.
  - destruct (call a (add_phone p) st) as [[st1 out] |] eqn:E; [| done].
    injection H as <-. apply rtc_once. eapply basic_call; [constructor | done].
  - destruct (call a (remove_phone p) st) as [[st1 out] |] eqn:E; [| done].
    injection H as <-. apply rtc_once. eapply basic_call; [constructor | done].
  - destruct (call a (edit_phone _ _) st) as [[st1 out] |] eqn:E; [| done].
    injection H as <-. apply rtc_once. eapply basic_call; [constructor | done].
  - destruct (call a (add_birthday s) st) as [[st1 out] |] eqn:E; [| done].
    injection H as <-. apply rtc_once. eapply basic_call; [constructor | done].
  - apply rtc_once. eapply basic_add; exact H.
  - by injection H as <-.
  - injection H as <-. apply rtc_once, basic_del.
  - by injection H as <-.
  - destruct (add_contact args st) as [[st1 out] |] eqn:E; [| done].
    injection H as <-. by eapply add_contact_moves.
  - destruct (change_contact args st) as [[st1 out] |] eqn:E; [| done].
    injection H as <-. by eapply change_contact_moves.
  - destruct (add_birthday_handler args st) as [[st1 out] |] eqn:E; [| done].
    injection H as <-. by eapply add_birthday_handler_moves.
Qed.

Lemma run_moves ops st st' : run ops st = Some st' -> rtc basic st st'.
Proof.
  revert st. induction ops as [| o ops IH]; intros st; simpl.
  - by intros [= <-].
  - destruct (step o st) as [st1 |] eqn:E; [| done]. simpl. intros H.
    etrans; [eapply step_moves; exact E | by apply IH].
Qed.

Lemma record_method_keeps_name A (m : method A) :
  record_method A m -> keeps_name m.
Proof.
  destruct 1; [apply add_phone_keeps_name | apply remove_phone_keeps_name
              | apply edit_phone_keeps_name | apply add_birthday_keeps_name].
Qed.

Lemma record_method_keeps_ok A (m : method A) :
  record_method A m -> keeps_ok m.
Proof.
  destruct 1; [apply add_phone_keeps_ok | apply remove_phone_keeps_ok
              | apply edit_phone_keeps_ok | apply add_birthday_keeps_ok].
Qed.

(** The keys of a dict stay distinct. *)
Lemma dict_set_keys {V} k (v : V) d :
  map fst (dict_set k v d)
  = match dict_get k d with
    | Some _ => map fst d
    | None => map fst d ++ [k]
    end.
Proof.
  induction d as [| [k' v'] d IH]; simpl; [done |].
  destruct (pystr_eqb k' k) eqn:E; simpl.
  - apply pystr_eqb_true in E. by subst.
  - rewrite IH. by destruct (dict_get k d).
Qed.

Lemma dict_get_None {V} k (d : list (pystr * V)) :
  dict_get k d = None <-> ~ In k (map fst d).
Proof.
  induction d as [| [k' v'] d IH]; simpl; [tauto |].
  destruct (pystr_eqb k' k) eqn:E.
  - apply pystr_eqb_true in E. split; [done | tauto].
  - apply pystr_eqb_false in E. rewrite IH. tauto.
Qed.

Lemma dict_del_keys_sublist {V} k (d : list (pystr * V)) :
  sublist (map fst (dict_del k d)) (map fst d).
Proof.
  induction d as [| [k' v'] d IH]; simpl; [done |].
  destruct (pystr_eqb k' k); simpl.
  - by apply sublist_cons.
  - by apply sublist_skip.
Qed.

Lemma dict_get_del {V} k (d : list (pystr * V)) :
  NoDup (map fst d) -> dict_get k (dict_del k d) = None.
Proof.
  induction d as [| [k' v'] d IH]; simpl; [done |].
  intros [Hk Hd]%NoDup_cons.
  destruct (pystr_eqb k' k) eqn:E; simpl.
  - apply pystr_eqb_true in E as ->. apply dict_get_None.
    by rewrite <- list_elem_of_In.
  - rewrite E. by apply IH.
Qed.

Lemma dict_get_del_ne {V} k k' (d : list (pystr * V)) :
  k <> k' -> dict_get k' (dict_del k d) = dict_get k' d.
Proof.
  intros Hne. induction d as [| [k0 v0] d IH]; simpl; [done |].
  destruct (pystr_eqb k0 k) eqn:E; simpl.
  - apply pystr_eqb_true in E as ->.
    by rewrite (proj2 (pystr_eqb_false k k')).
  - by rewrite IH.
Qed.

Lemma basic_wf st st' : basic st st' -> wf st -> wf st'.
Proof.
  intros Hb (Hn & Hf & Hk). destruct Hb as [A a m st st' out Hm Hc | | |].
  - destruct (call_fields a m st st' out (record_method_keeps_ok _ _ Hm) Hc Hf)
      as [Hf' Hd].
    split; [| split; [done |]].
    + eapply call_preserves;
        [eapply record_method_keeps_name; exact Hm | exact Hc | exact Hn].
    + unfold keys_unique. by rewrite Hd.
  - split; [by apply new_Record_preserves |]. split; [| done].
    unfold fields_valid. simpl. apply Forall_app. split; [done |].
    constructor; [| constructor]. split; [constructor | done].
  - split; [by eapply add_record_preserves |].
    unfold add_record in H. destruct (heap st !! a) as [r |]; [| done].
    injection H as <-. split; [done |]. unfold keys_unique. simpl.
    rewrite dict_set_keys. destruct (dict_get _ _) eqn:E; [done |].
    apply NoDup_app. split; [done |]. split; [| apply NoDup_singleton].
    intros x Hx ->%list_elem_of_singleton.
    apply dict_get_None in E. by apply E, list_elem_of_In.
  - split; [by apply delete_preserves |]. unfold delete.
    destruct (dict_get nm (data st)); [| done]. split; [done |].
    unfold keys_unique. simpl.
    eapply sublist_NoDup; [exact Hk | apply dict_del_keys_sublist].
Qed.

Lemma wf_empty : wf empty_book.
Proof.
  split; [apply name_is_key_empty |]. split; [constructor | constructor].
Qed.

Lemma moves_wf st st' : rtc basic st st' -> wf st -> wf st'.
Proof.
  induction 1 as [| x y z Hxy _ IH]; [done |].
  intros Hx. apply IH. by eapply basic_wf.
Qed.

Lemma run_wf ops st : run ops empty_book = Some st -> wf st.
Proof. intros H%run_moves. by apply (moves_wf _ _ H), wf_empty. Qed.

End Moves.

(** X4: in every state reached from the empty book, every phone of every
    record has exactly 10 characters, all digits for [str.isdigit], and
    every birthday is a date of the calendar: no operation stores a field
    that did not pass its validation. *)
Theorem fields_valid_reachable ops st :
  run ops empty_book = Some st ->
  forall a r, heap st !! a = Some r ->
    Forall (fun ph => length (phone_value ph) = 10%nat
                      /\ forallb Unicode.isdigit (phone_value ph) = true)
           (phones r)
    /\ (forall b, birthday r = Some b -> valid (birthday_value b)).
Proof.
  intros (_ & Hf & _)%run_wf a r Hr.
  by apply (Forall_lookup_1 _ _ _ _ Hf Hr).
Qed.

Lemma fields_valid_reachable_witness :
  let ops := [OpAddContact [lit "Ann"; lit "1234567890"];
              OpAddBirthdayCmd [lit "Ann"; lit "29.02.2000"];
              OpAddContact [lit "Ann"; lit "12"];
              OpAddBirthdayCmd [lit "Ann"; lit "31.02.2000"]] in
  let r := mkRecord (mkName (lit "Ann")) [mkPhone (lit "1234567890")]
             (Some (mkBirthday (mkdate 2000 2 29))) in
  run ops empty_book = Some (mkState [r] [(lit "Ann", 0%nat)])
  /\ Forall (fun ph => length (phone_value ph) = 10%nat
                       /\ forallb Unicode.isdigit (phone_value ph) = true)
            (phones r)
  /\ (forall b, birthday r = Some b -> valid (birthday_value b)).
Proof.
  intros ops r.
  assert (run ops empty_book = Some (mkState [r] [(lit "Ann", 0%nat)]))
    as Hrun by (vm_compute; reflexivity).
  split; [exact Hrun |].
  exact (fields_valid_reachable ops _ Hrun 0%nat r eq_refl).
Defined.

(** X5: in every state reached from the empty book, [find] returns a
    record of the book whose name is the name asked for, and returns [None]
    only when no record of the book has that name. *)
Theorem find_spec ops st nm :
  run ops empty_book = Some st ->
  match find nm st with
  | Some a =>
      exists r, heap st !! a = Some r /\ name_value (name r) = nm
                /\ In r (values st)
  | None => forall r, In r (values st) -> name_value (name r) <> nm
  end.
Proof.
  intros (Hn & _ & _)%run_wf. unfold find.
  destruct (dict_get nm (data st)) as [a |] eqn:E.
  - apply dict_get_In in E. destruct (Hn _ _ E) as (r & Hr & Hk).
    exists r. repeat split; try done.
    apply list_elem_of_In, list_elem_of_omap. exists (nm, a).
    split; [by apply list_elem_of_In | done].
  - intros r [[k a] [Hin Hr]]%list_elem_of_In%list_elem_of_omap.
    apply list_elem_of_In in Hin. simpl in Hr.
    destruct (Hn _ _ Hin) as (r' & Hr' & Hk).
    assert (r' = r) as -> by congruence. rewrite Hk. intros ->.
    apply dict_get_None in E. apply E. apply in_map_iff. by exists (nm, a).
Qed.

Lemma find_spec_witness :
  let ops := [OpAddContact [lit "Ann"; lit "1234567890"]] in
  let st := mkState [mkRecord (mkName (lit "Ann"))
                       [mkPhone (lit "1234567890")] None]
                    [(lit "Ann", 0%nat)] in
  run ops empty_book = Some st
  /\ match find (lit "Bob") st with
     | Some a =>
         exists r, heap st !! a = Some r /\ name_value (name r) = lit "Bob"
                   /\ In r (values st)
     | None => forall r, In r (values st) -> name_value (name r) <> lit "Bob"
     end.
Proof.
  intros ops st.
  assert (run ops empty_book = Some st) as Hrun by (vm_compute; reflexivity).
  split; [exact Hrun |]. exact (find_spec ops st (lit "Bob") Hrun).
Defined.

(** X6: in every state reached from the empty book, after [delete] the
    name is not found any more, every other name is found as before, no
    record object changes, and deleting a name that is absent changes
    nothing (and raises nothing). *)
Theorem delete_spec ops st nm :
  run ops empty_book = Some st ->
  find nm (delete nm st) = None
  /\ (forall k, k <> nm -> find k (delete nm st) = find k st)
  /\ heap (delete nm st) = heap st
  /\ (find nm st = None -> delete nm st = st).
Proof.
  intros (_ & _ & Hk)%run_wf. unfold delete, find.
  destruct (dict_get nm (data st)) as [a |] eqn:E; simpl.
  - repeat split; try done.
    + by apply dict_get_del.
    + intros k Hne. by apply dict_get_del_ne.
  - repeat split; try done.
Qed.

Lemma delete_spec_witness :
  let ops := [OpAddContact [lit "Ann"; lit "1234567890"];
              OpAddContact [lit "Bob"; lit "0987654321"]] in
  let st := mkState [mkRecord (mkName (lit "Ann"))
                       [mkPhone (lit "1234567890")] None;
                     mkRecord (mkName (lit "Bob"))
                       [mkPhone (lit "0987654321")] None]
                    [(lit "Ann", 0%nat); (lit "Bob", 1%nat)] in
  run ops empty_book = Some st
  /\ find (lit "Ann") (delete (lit "Ann") st) = None
  /\ (forall k, k <> lit "Ann" -> find k (delete (lit "Ann") st) = find k st)
  /\ heap (delete (lit "Ann") st) = heap st
  /\ (find (lit "Ann") st = None -> delete (lit "Ann") st = st).
Proof.
  intros ops st.
  assert (run ops empty_book = Some st) as Hrun by (vm_compute; reflexivity).
  split; [exact Hrun |]. exact (delete_spec ops st (lit "Ann") Hrun).
Defined.

(** ** Handlers: what they answer and change *)

Section HandlerFacts.

Lemma call_found {A} a (m : method A) st r :
  heap st !! a = Some r ->
  call a m st = Some (with_record a (fst (m r)) st, snd (m r)).
Proof. intros Hr. unfold call. rewrite Hr. by destruct (m r). Qed.

Lemma with_record_same a r st : heap st !! a = Some r -> with_record a r st = st.
Proof.
  intros Hr. unfold with_record. rewrite list_insert_id by done. by destruct st.
Qed.

Lemma find_object nm a st :
  name_is_key st -> find nm st = Some a ->
  exists r, heap st !! a = Some r /\ name_value (name r) = nm.
Proof. intros Hn Hf. apply dict_get_In in Hf. by apply Hn. Qed.

End HandlerFacts.

(** X7: the add handler with a phone text that [Phone] accepts. For a name
    absent from the book it creates the record with that one phone, files it
    under the name and answers "Contact added."; for a name that is present
    it appends the phone to the record, also when the record has it
    already, and answers "Contact updated.". *)
Theorem add_contact_valid_phone nm phone rest st :
  name_is_key st -> (exists p, Phone_init phone = Ok p) ->
  match find nm st with
  | Some a =>
      exists r,
        heap st !! a = Some r /\ name_value (name r) = nm
        /\ add_contact (nm :: phone :: rest) st
           = Some (with_record a
                     (set_phones (phones r ++ [mkPhone phone]) r) st,
                   Ok (VStr (lit "Contact updated.")))
  | None =>
      add_contact (nm :: phone :: rest) st
      = Some (mkState
                (heap st ++ [mkRecord (mkName nm) [mkPhone phone] None])
                (data st ++ [(nm, length (heap st))]),
              Ok (VStr (lit "Contact added.")))
  end.
Proof.
  intros Hn [p Hp]. pose proof (Phone_init_Ok _ _ Hp) as (-> & Hlen & _).
  assert (exists c cs, phone = c :: cs) as (c & cs & Hph)
    by (destruct phone; [done | eauto]).
  unfold add_contact, add_contact_body, input_error.
  destruct (find nm st) as [a |] eqn:Hf; simpl.
  - destruct (find_object _ _ _ Hn Hf) as (r & Hr & Hk). exists r.
    split; [done |]. split; [done |].
    rewrite Hph, <- Hph. rewrite (call_found _ _ _ _ Hr).
    unfold add_phone. by rewrite Hp.
  - unfold add_record. simpl. rewrite list_lookup_middle by done. simpl.
    unfold find in Hf. rewrite (dict_set_absent _ _ _ Hf).
    rewrite Hph, <- Hph. unfold call. simpl.
    rewrite list_lookup_middle by done. unfold add_phone. rewrite Hp. simpl.
    rewrite insert_app_r_alt by done. by rewrite Nat.sub_diag.
Qed.

Lemma add_contact_valid_phone_witness :
  add_contact [lit "Ann"; lit "1234567890"] empty_book
  = Some (mkState [mkRecord (mkName (lit "Ann"))
                     [mkPhone (lit "1234567890")] None]
                  [(lit "Ann", 0%nat)],
          Ok (VStr (lit "Contact added."))).
Proof.
  apply (add_contact_valid_phone (lit "Ann") (lit "1234567890") [] empty_book).
  - apply name_is_key_empty.
  - by exists (mkPhone (lit "1234567890")).
Defined.

(** X8: the change handler. For an unknown name it answers "Contact not
    found." and changes nothing; when the record has no phone [old_phone] it
    answers "Phone number is incorrect" and changes nothing; when it has
    one and [new_phone] is valid, the old one is dropped, the new one
    appended, and the answer is "Phone updated."; when [new_phone] is not
    valid the answer is the phone message and the old phone is lost. *)
Theorem change_contact_spec nm old_phone new_phone st :
  name_is_key st ->
  match find nm st with
  | None =>
      change_contact [nm; old_phone; new_phone] st
      = Some (st, Ok (VStr (lit "Contact not found.")))
  | Some a =>
      exists r,
        heap st !! a = Some r /\ name_value (name r) = nm
        /\ change_contact [nm; old_phone; new_phone] st
           = match find_phone old_phone r, Phone_init new_phone with
             | None, _ =>
                 Some (st, Ok (VStr (lit "Phone number is incorrect")))
             | Some _, Ok _ =>
                 Some (with_record a
                         (set_phones (list_remove old_phone (phones r)
                                      ++ [mkPhone new_phone]) r) st,
                       Ok (VStr (lit "Phone updated.")))
             | Some _, Raise _ =>
                 Some (with_record a
                         (set_phones (list_remove old_phone (phones r)) r) st,
                       Ok (VStr phone_message))
             end
  end.
Proof.
  intros Hn. unfold change_contact, change_contact_body, input_error.
  destruct (find nm st) as [a |] eqn:Hf; [| done].
  destruct (find_object _ _ _ Hn Hf) as (r & Hr & Hk). exists r.
  split; [done |]. split; [done |].
  rewrite (call_found _ _ _ _ Hr). unfold edit_phone, remove_phone.
  destruct (find_phone old_phone r) as [ph |] eqn:Hfp; simpl.
  - unfold find_phone in Hfp.
    destruct (find_phone_in_Some _ _ _ Hfp) as (_ & _ & _ & Hv & _ & _).
    rewrite Hv. unfold add_phone. simpl.
    destruct (Phone_init new_phone) as [p | e] eqn:Hp; simpl.
    + by apply Phone_init_Ok in Hp as (-> & _ & _).
    + by rewrite (Phone_init_raises _ _ Hp).
  - by rewrite (with_record_same _ _ _ Hr).
Qed.

Lemma change_contact_spec_witness :
  let st := mkState [mkRecord (mkName (lit "Ann"))
                       [mkPhone (lit "1234567890")] None]
                    [(lit "Ann", 0%nat)] in
  exists r,
    heap st !! 0%nat = Some r /\ name_value (name r) = lit "Ann"
    /\ change_contact [lit "Ann"; lit "1234567890"; lit "12"] st
       = match find_phone (lit "1234567890") r, Phone_init (lit "12") with
         | None, _ =>
             Some (st, Ok (VStr (lit "Phone number is incorrect")))
         | Some _, Ok _ =>
             Some (with_record 0%nat
                     (set_phones (list_remove (lit "1234567890") (phones r)
                                  ++ [mkPhone (lit "12")]) r) st,
                   Ok (VStr (lit "Phone updated.")))
         | Some _, Raise _ =>
             Some (with_record 0%nat
                     (set_phones (list_remove (lit "1234567890") (phones r)) r)
                     st,
                   Ok (VStr phone_message))
         end.
Proof.
  intros st.
  assert (name_is_key st) as Hn.
  { intros k a [[= <- <-] | []]. eexists. split; reflexivity. }
  exact (change_contact_spec (lit "Ann") (lit "1234567890") (lit "12") st Hn).
Defined.

(** X9: for a contact of the book, the add-birthday handler with a text
    that stands for a date answers "Birthday added." and replaces the
    birthday, whatever it was, so that show-birthday then answers with the
    name and that date in ISO format; with another text it answers the date
    message and changes nothing. *)
Theorem add_birthday_then_show nm s st a :
  name_is_key st -> find nm st = Some a ->
  match accepted_date s with
  | Some d =>
      exists st',
        add_birthday_handler [nm; s] st
        = Some (st', Ok (VStr (lit "Birthday added.")))
        /\ data st' = data st
        /\ show_birthday [nm] st'
           = Some (st', Ok (VStr (nm ++ lit "'s birthday is on "
                                  ++ isoformat d)))
  | None =>
      add_birthday_handler [nm; s] st
      = Some (st, Ok (VStr date_format_message))
  end.
Proof.
  intros Hn Hf. destruct (find_object _ _ _ Hn Hf) as (r & Hr & Hk).
  unfold add_birthday_handler, add_birthday_body, input_error.
  rewrite Hf, (call_found _ _ _ _ Hr). unfold add_birthday.
  rewrite Birthday_init_accepted.
  destruct (accepted_date s) as [d |]; simpl.
  - eexists. split; [done |]. split; [done |].
    unfold show_birthday, show_birthday_body, input_error, find. simpl.
    unfold find in Hf. rewrite Hf. simpl.
    rewrite list_lookup_insert_eq by by eapply lookup_lt_Some.
    simpl. unfold Name_str, Birthday_str. simpl. by rewrite Hk.
  - by rewrite (with_record_same _ _ _ Hr).
Qed.

Lemma add_birthday_then_show_witness :
  let st := mkState [mkRecord (mkName (lit "Ann")) []
                       (Some (mkBirthday (mkdate 1990 6 15)))]
                    [(lit "Ann", 0%nat)] in
  exists st',
    add_birthday_handler [lit "Ann"; lit "01.02.1991"] st
    = Some (st', Ok (VStr (lit "Birthday added.")))
    /\ data st' = data st
    /\ show_birthday [lit "Ann"] st'
       = Some (st', Ok (VStr (lit "Ann's birthday is on 1991-02-01"))).
Proof.
  intros st.
  assert (name_is_key st) as Hn.
  { intros k a [[= <- <-] | []]. eexists. split; reflexivity. }
  exact (add_birthday_then_show (lit "Ann") (lit "01.02.1991") st 0%nat
           Hn eq_refl).
Defined.

Section Frame.

Lemma other_address nm k a a' st :
  name_is_key st -> k <> nm ->
  find nm st = Some a -> find k st = Some a' -> a <> a'.
Proof.
  intros Hn Hne Hf Hf' <-.
  destruct (find_object _ _ _ Hn Hf) as (r & Hr & Hk).
  destruct (find_object _ _ _ Hn Hf') as (r' & Hr' & Hk').
  congruence.
Qed.

Lemma call_frame {A} nm a (m : method A) v st st' out :
  name_is_key st -> find nm st = Some a ->
  returning v <$> call a m st = Some (st', out) ->
  data st' = data st
  /\ forall k a', k <> nm -> find k st = Some a' ->
       heap st' !! a' = heap st !! a'.
Proof.
  intros Hn Hf H. destruct (find_object _ _ _ Hn Hf) as (r & Hr & Hk).
  rewrite (call_found _ _ _ _ Hr) in H. simpl in H.
  assert (st' = with_record a (fst (m r)) st) as ->
    by (destruct (snd (m r)); simpl in H; by injection H as <- _).
  split; [done |]. intros k a' Hne Hf'. simpl.
  apply list_lookup_insert_ne. by eapply other_address.
Qed.

End Frame.

(** X10: the handlers add, change and add-birthday called for a name never
    touch the other contacts: every other name is found as before and its
    record is unchanged. *)
Theorem handlers_leave_other_contacts nm rest st st' out :
  name_is_key st ->
  add_contact (nm :: rest) st = Some (st', out)
  \/ change_contact (nm :: rest) st = Some (st', out)
  \/ add_birthday_handler (nm :: rest) st = Some (st', out) ->
  forall k a, k <> nm -> find k st = Some a ->
    find k st' = Some a /\ heap st' !! a = heap st !! a.
Proof.
  intros Hn H k a' Hne Hf'.
  assert (data st' = data st
          /\ (forall k a', k <> nm -> find k st = Some a' ->
                heap st' !! a' = heap st !! a')
          -> find k st' = Some a' /\ heap st' !! a' = heap st !! a') as Hfin.
  { intros [Hd Hh]. split; [| by eapply Hh]. unfold find. by rewrite Hd. }
  destruct H as [H | [H | H]];
    apply input_error_state in H as (out' & H).
  - unfold add_contact_body in H.
    destruct rest as [| ph rest]; [by injection H as <- _ |].
    destruct (find nm st) as [a |] eqn:Hf; simpl in H.
    + destruct ph; [by injection H as <- _ |].
      apply Hfin. by eapply call_frame.
    + unfold add_record in H. simpl in H.
      rewrite list_lookup_middle in H by done. simpl in H.
      assert (exists r', st' = mkState (heap st ++ [r'])
                (dict_set nm (length (heap st)) (data st)))
        as [r' ->].
      { destruct ph; [injection H as <- _; eauto |].
        unfold call in H. simpl in H.
        rewrite list_lookup_middle in H by done.
        destruct (add_phone _ _) as [r' o]. simpl in H.
        rewrite insert_app_r_alt, Nat.sub_diag in H by done.
        destruct o; injection H as <- _; eauto. }
      unfold find. simpl. rewrite dict_get_set_ne by done.
      split; [done |]. apply lookup_app_l.
      destruct (find_object _ _ _ Hn Hf') as (r & Hr & _).
      by eapply lookup_lt_Some.
  - unfold change_contact_body in H.
    destruct rest as [| o [| n [| ? ?]]]; try by injection H as <- _.
    destruct (find nm st) as [a |] eqn:Hf; [| by injection H as <- _].
    apply Hfin. by eapply call_frame.
  - unfold add_birthday_body in H.
    destruct rest as [| s [| ? ?]]; try by injection H as <- _.
    destruct (find nm st) as [a |] eqn:Hf; [| by injection H as <- _].
    apply Hfin. by eapply call_frame.
Qed.

Lemma handlers_leave_other_contacts_witness :
  let st := mkState [mkRecord (mkName (lit "Ann"))
                       [mkPhone (lit "1234567890")] None;
                     mkRecord (mkName (lit "Bob")) [] None]
                    [(lit "Ann", 0%nat); (lit "Bob", 1%nat)] in
  let st' := mkState [mkRecord (mkName (lit "Ann")) [] None;
                      mkRecord (mkName (lit "Bob")) [] None]
                     [(lit "Ann", 0%nat); (lit "Bob", 1%nat)] in
  change_contact [lit "Ann"; lit "1234567890"; lit "1"] st
  = Some (st', Ok (VStr phone_message))
  /\ find (lit "Bob") st' = Some 1%nat
  /\ heap st' !! 1%nat = heap st !! 1%nat.
Proof.
  intros st st'.
  assert (name_is_key st) as Hn.
  { intros k a [[= <- <-] | [[= <- <-] | []]]; eexists; split; reflexivity. }
  assert (change_contact [lit "Ann"; lit "1234567890"; lit "1"] st
          = Some (st', Ok (VStr phone_message))) as Hc
    by (vm_compute; reflexivity).
  split; [exact Hc |].
  apply (handlers_leave_other_contacts (lit "Ann")
           [lit "1234567890"; lit "1"] st st' _ Hn
           (or_intror (or_introl Hc)) (lit "Bob") 1%nat);
    [discriminate | reflexivity].
Defined.

(** ** Handlers: exceptions *)

Section Raises.

Lemma record_method_raises A (m : method A) r e :
  record_method A m -> snd (m r) = Raise e -> is_ValueError e.
Proof.
  destruct 1; simpl.
  - unfold add_phone. destruct (Phone_init p) eqn:E; [done |].
    intros [= <-]. rewrite (Phone_init_raises _ _ E). by eexists.
  - unfold remove_phone. by destruct (find_phone p r).
  - unfold edit_phone. destruct (find_phone o r); [| intros [= <-]; by eexists].
    destruct (remove_phone o r) as [r1 ?]. unfold add_phone.
    destruct (Phone_init n) eqn:E; [done |].
    intros [= <-]. rewrite (Phone_init_raises _ _ E). by eexists.
  - unfold add_birthday. destruct (Birthday_init s) eqn:E; [done |].
    intros [= <-]. rewrite (Birthday_init_raises _ _ E). by eexists.
Qed.

Lemma handler_call_raises {A} v a (m : method A) st st' e :
  record_method A m ->
  returning v <$> call a m st = Some (st', Raise e) -> is_ValueError e.
Proof.
  intros Hm H. unfold call in H. destruct (heap st !! a) as [r |]; [| done].
  pose proof (record_method_raises A m r) as Hr.
  destruct (m r) as [r' [x | e']]; simpl in *; [done |].
  injection H as _ <-. by apply Hr.
Qed.

Lemma mapM_res_raise_inv {A B} (f : A -> res B) l e :
  mapM_res f l = Raise e -> exists x, In x l /\ f x = Raise e.
Proof.
  induction l as [| a l IH]; simpl; [done |].
  destruct (f a) as [y | e'] eqn:Ea; simpl.
  - destruct (mapM_res f l) as [ys |]; simpl; [done |].
    intros [= <-]. destruct (IH eq_refl) as (x & ? & ?). eauto.
  - intros [= <-]. eauto.
Qed.

Lemma get_upcoming_birthdays_raises today days st e :
  get_upcoming_birthdays today days st = Raise e -> is_ValueError e.
Proof.
  unfold get_upcoming_birthdays. rewrite upcoming_loop_spec.
  destruct (mapM_res _ _) as [ps | e'] eqn:E; simpl; [done |].
  intros [= <-]. apply mapM_res_raise_inv in E as (b & _ & Hb).
  by apply projected_raises in Hb.
Qed.

Lemma unpack_raises expected got : is_ValueError (not_enough expected got).
Proof. by eexists. Qed.

Lemma too_many_raises expected : is_ValueError (too_many expected).
Proof. by eexists. Qed.

Lemma add_contact_body_raises args st st' e :
  add_contact_body args st = Some (st', Raise e) -> is_ValueError e.
Proof.
  unfold add_contact_body. intros H.
  destruct args as [| nm [| ph rest]];
    try (injection H as _ <-; apply unpack_raises).
  destruct (find nm st) as [a |]; simpl in H.
  - destruct ph; [done |].
    eapply handler_call_raises; [constructor | done].
  - destruct (add_record _ _); [| done]. simpl in H. destruct ph; [done |].
    eapply handler_call_raises; [constructor | done].
Qed.

Lemma change_contact_body_raises args st st' e :
  change_contact_body args st = Some (st', Raise e) -> is_ValueError e.
Proof.
  unfold change_contact_body. intros H.
  destruct args as [| nm [| o [| n [| ? ?]]]];
    try (injection H as _ <-; apply unpack_raises || apply too_many_raises).
  destruct (find nm st) as [a |]; [| done].
  eapply handler_call_raises; [constructor | done].
Qed.

Lemma add_birthday_body_raises args st st' e :
  add_birthday_body args st = Some (st', Raise e) -> is_ValueError e.
Proof.
  unfold add_birthday_body. intros H.
  destruct args as [| nm [| s [| ? ?]]];
    try (injection H as _ <-; apply unpack_raises || apply too_many_raises).
  destruct (find nm st) as [a |]; [| done].
  eapply handler_call_raises; [constructor | done].
Qed.

Lemma phone_body_raises args st st' e :
  phone_body args st = Some (st', Raise e) -> is_ValueError e.
Proof.
  unfold phone_body. intros H.
  destruct args as [| nm [| ? ?]];
    try (injection H as _ <-; apply unpack_raises || apply too_many_raises).
  by destruct (find nm st).
Qed.

Lemma show_birthday_body_raises args st st' e :
  show_birthday_body args st = Some (st', Raise e) -> is_ValueError e.
Proof.
  unfold show_birthday_body. intros H.
  destruct args as [| nm [| ? ?]];
    try (injection H as _ <-; apply unpack_raises || apply too_many_raises).
  destruct (find nm st) as [a |]; [| done].
  destruct (heap st !! a) as [r |]; [| done]. simpl in H.
  by destruct (birthday r).
Qed.

Lemma input_error_Ok func st :
  (forall st' e, func st = Some (st', Raise e) -> is_ValueError e) ->
  is_Some (func st) ->
  exists st' v, input_error func st = Some (st', Ok v).
Proof.
  intros Hr [[st' [v | e]] Hf]; unfold input_error; rewrite Hf; [eauto |].
  destruct (Hr _ _ Hf) as [msg ->]. eauto.
Qed.

End Raises.

(** X11: on every state reached from the empty book and for every argument
    list, each of the seven handlers returns a value: no exception leaves a
    handler wrapped by [input_error] (in particular [birthdays] never lets
    an [OverflowError] of the date arithmetic through). *)
Theorem handlers_never_raise ops st args today :
  run ops empty_book = Some st ->
  (exists st' v, add_contact args st = Some (st', Ok v))
  /\ (exists st' v, change_contact args st = Some (st', Ok v))
  /\ (exists st' v, phone args st = Some (st', Ok v))
  /\ (exists st' v, all_contacts st = Some (st', Ok v))
  /\ (exists st' v, add_birthday_handler args st = Some (st', Ok v))
  /\ (exists st' v, show_birthday args st = Some (st', Ok v))
  /\ (exists st' v, birthdays today st = Some (st', Ok v)).
Proof.
  intros Hrun.
  destruct (reachable_wf ops st args Hrun) as (H1 & H2 & H3 & H4 & H5).
  assert (forall f, is_Some (input_error f st) -> is_Some (f st)) as Hsome.
  { intros f [x Hx]. unfold input_error in Hx.
    destruct (f st); [done | discriminate]. }
  repeat split.
  - apply input_error_Ok; [apply add_contact_body_raises | by apply Hsome].
  - apply input_error_Ok; [apply change_contact_body_raises | by apply Hsome].
  - apply input_error_Ok; [apply phone_body_raises | by apply Hsome].
  - by exists st, VBook.
  - apply input_error_Ok; [apply add_birthday_body_raises | by apply Hsome].
  - apply input_error_Ok; [apply show_birthday_body_raises | by apply Hsome].
  - unfold birthdays. apply input_error_Ok.
    + intros st' e H.
      destruct (get_upcoming_birthdays today 7 st) as [[| ? ?] | e'] eqn:E;
        try done.
      injection H as _ <-. by eapply get_upcoming_birthdays_raises.
    + by destruct (get_upcoming_birthdays today 7 st) as [[| ? ?] |].
Qed.

Lemma handlers_never_raise_witness :
  let st := mkState [mkRecord (mkName (lit "Eve")) []
                       (Some (mkBirthday (mkdate 2000 2 29)))]
                    [(lit "Eve", 0%nat)] in
  run [OpAddContact [lit "Eve"; []];
       OpAddBirthdayCmd [lit "Eve"; lit "29.02.2000"]] empty_book = Some st
  /\ exists st' v, birthdays (mkdate 2023 3 1) st = Some (st', Ok v).
Proof.
  intros st.
  assert (run [OpAddContact [lit "Eve"; []];
               OpAddBirthdayCmd [lit "Eve"; lit "29.02.2000"]] empty_book
          = Some st) as Hrun by (vm_compute; reflexivity).
  split; [exact Hrun |].
  apply (handlers_never_raise _ st [] (mkdate 2023 3 1) Hrun).
Defined.

(** X12: the bodies of the handlers raise nothing but [ValueError]; the
    branches of [input_error] for [IndexError] and [KeyError], with their
    fixed messages, are never taken. *)
Theorem handler_bodies_raise_ValueError args today st st' e :
  add_contact_body args st = Some (st', Raise e)
  \/ change_contact_body args st = Some (st', Raise e)
  \/ phone_body args st = Some (st', Raise e)
  \/ add_birthday_body args st = Some (st', Raise e)
  \/ show_birthday_body args st = Some (st', Raise e)
  \/ get_upcoming_birthdays today 7 st = Raise e ->
  exists msg, e = ValueError msg.
Proof.
  intros [H | [H | [H | [H | [H | H]]]]].
  - by eapply add_contact_body_raises.
  - by eapply change_contact_body_raises.
  - by eapply phone_body_raises.
  - by eapply add_birthday_body_raises.
  - by eapply show_birthday_body_raises.
  - by eapply get_upcoming_birthdays_raises.
Qed.

Lemma handler_bodies_raise_ValueError_witness :
  phone_body [] empty_book
  = Some (empty_book, Raise (not_enough (lit "1") 0))
  /\ exists msg, not_enough (lit "1") 0 = ValueError msg.
Proof.
  assert (phone_body [] empty_book
          = Some (empty_book, Raise (not_enough (lit "1") 0))) as H
    by reflexivity.
  split; [exact H |].
  apply (handler_bodies_raise_ValueError [] (mkdate 2024 1 1) empty_book
           empty_book (not_enough (lit "1") 0)).
  right. right. left. exact H.
Defined.

(** ** Upcoming birthdays *)

Section UpcomingFacts.

Lemma weekend_ordinal p k :
  valid p -> weekday p = 7 - k -> 1 <= k <= 2 ->
  1 <= toordinal p + k <= MAXORDINAL.
Proof.
  intros Hv Hw Hk. pose proof (toordinal_range p Hv) as Ho.
  unfold weekday in Hw. unfold MAXORDINAL in *. divmod.
Qed.

Lemma weekend_adjusted_valid p : valid p -> valid (weekend_adjusted p).
Proof.
  intros Hv. unfold weekend_adjusted.
  destruct (Z.eqb_spec (weekday p) 5) as [E5 |].
  - apply ord2ymd_spec, weekend_ordinal; [done | lia | lia].
  - destruct (Z.eqb_spec (weekday p) 6) as [E6 |]; [| done].
    apply ord2ymd_spec, weekend_ordinal; [done | lia | lia].
Qed.

Lemma weekend_adjusted_facts p :
  valid p ->
  valid (weekend_adjusted p) /\ weekday (weekend_adjusted p) < 5
  /\ 0 <= sub_days (weekend_adjusted p) p <= 2
  /\ (weekday p < 5 -> weekend_adjusted p = p).
Proof.
  intros Hv. pose proof (weekday_range p) as Hr.
  split; [by apply weekend_adjusted_valid |].
  destruct (weekend_adjusted_spec p Hv) as [Hwe Hwd].
  destruct (Z.lt_ge_cases (weekday p) 5) as [Hlt | Hge].
  - rewrite (Hwd Hlt). unfold sub_days.
    split; [lia |]. split; [lia | done].
  - destruct (Hwe Hge) as (H0 & _ & Hs).
    split; [lia |]. split; [lia |]. intros; lia.
Qed.

Lemma sub_days_trans a b c : sub_days a c = sub_days a b + sub_days b c.
Proof. unfold sub_days. lia. Qed.

Lemma mapM_res_Ok {A B} (f : A -> res B) l ys :
  mapM_res f l = Ok ys -> Forall2 (fun x y => f x = Ok y) l ys.
Proof.
  revert ys. induction l as [| a l IH]; intros ys; simpl.
  - intros [= <-]. constructor.
  - destruct (f a) as [y |] eqn:Ea; simpl; [| done].
    destruct (mapM_res f l) as [ys' |]; simpl; [| done].
    intros [= <-]. constructor; [done | by apply IH].
Qed.

Lemma mapM_res_total {A B} (f : A -> res B) l :
  (forall x, In x l -> exists y, f x = Ok y) ->
  exists ys, mapM_res f l = Ok ys.
Proof.
  induction l as [| a l IH]; intros H; simpl; [eauto |].
  destruct (H a (or_introl eq_refl)) as [y ->]. simpl.
  destruct IH as [ys ->]; [intros x Hx; apply H; by right |]. simpl. eauto.
Qed.

(** A projected date is not before today. *)
Lemma projected_not_past today b p :
  valid today -> projected today b = Ok p ->
  valid p /\ 0 <= sub_days p today.
Proof.
  intros Ht Hp. pose proof (projected_valid _ _ _ Hp) as Hv.
  split; [done |]. unfold projected in Hp.
  destruct (replace_year b (year today)) as [x |] eqn:Ex; [| done].
  simpl in Hp. apply replace_year_inv in Ex as [Hx Ex].
  unfold sub_days. destruct (date_lt x today) eqn:Hlt.
  - apply replace_year_inv in Hp as [_ ->].
    assert (date_lt today (mkdate (year today + 1) (month x) (day x)) = true)
      as Hlt'.
    { apply date_lt_iff. simpl. lia. }
    apply date_lt_toordinal in Hlt'; [lia | done |].
    by rewrite Ex in Hv |- *.
  - injection Hp as <-.
    destruct (Z.le_gt_cases (toordinal today) (toordinal x)); [lia |].
    assert (date_lt x today = true) by (by apply date_lt_toordinal; [..| lia]).
    congruence.
Qed.

Lemma days_in_month_year y y' m d :
  1 <= d <= days_in_month y m -> ~ (m = 2 /\ d = 29) ->
  1 <= d <= days_in_month y' m.
Proof.
  unfold days_in_month. intros Hd Hne.
  destruct (Z.eqb_spec m 2) as [-> | Hm]; simpl in *; [| done].
  destruct (is_leap y), (is_leap y'); simpl in *; lia.
Qed.

Lemma projected_total today b :
  MINYEAR <= year today < MAXYEAR -> valid b ->
  ~ (month b = 2 /\ day b = 29) ->
  exists p, projected today b = Ok p.
Proof.
  intros Hy (_ & Hm & Hd) Hne. unfold projected, replace_year.
  assert (forall y, MINYEAR <= y <= MAXYEAR ->
            date_new y (month b) (day b) = Ok (mkdate y (month b) (day b)))
    as Hnew.
  { intros y Hy'. apply (date_new_valid (mkdate y (month b) (day b))).
    repeat split; simpl; try lia;
      by apply (days_in_month_year (year b) y). }
  rewrite Hnew by lia. simpl.
  destruct (date_lt _ today); [| eauto].
  simpl. rewrite Hnew by lia. eauto.
Qed.

End UpcomingFacts.



(** X14: every date [get_upcoming_birthdays] returns is a date from Monday
    to Friday, not before today and at most [days + 2] days after it; there
    are at most as many as birthdays stored, and none when [days] is
    negative. *)
Theorem get_upcoming_birthdays_dates today days st res :
  valid today -> get_upcoming_birthdays today days st = Ok res ->
  Forall (fun r => valid r /\ weekday r < 5
                   /\ 0 <= sub_days r today <= days + 2) res
  /\ (length res <= length (stored_birthdays st))%nat
  /\ (days < 0 -> res = []).
Proof.
  intros Ht. unfold get_upcoming_birthdays. rewrite upcoming_loop_spec.
  fold (stored_birthdays st).
  destruct (mapM_res _ _) as [ps |] eqn:E; simpl; [| done].
  intros [= <-]. apply mapM_res_Ok in E. split.
  - apply List.Forall_forall. intros r (p & <- & Hp)%in_map_iff.
    apply filter_In in Hp as [Hin Hw].
    apply list_elem_of_In, list_elem_of_lookup in Hin as [i Hi].
    destruct (Forall2_lookup_r _ _ _ _ _ E Hi) as (b & _ & Hb).
    destruct (projected_not_past _ _ _ Ht Hb) as [Hv H0].
    destruct (weekend_adjusted_facts p Hv) as (? & ? & Hs & _).
    unfold in_window in Hw. apply andb_true_iff in Hw as [_ Hw%Z.leb_le].
    split; [done |]. split; [done |].
    rewrite (sub_days_trans (weekend_adjusted p) p today).
    generalize dependent (sub_days (weekend_adjusted p) p).
    generalize dependent (sub_days p today). intros; lia.
  - split.
    + rewrite length_map. rewrite (Forall2_length _ _ _ E).
      apply List.filter_length_le.
    + intros Hneg.
      destruct (List.filter (in_window today days) ps) as [| p l] eqn:Ef;
        [done |].
      assert (In p (List.filter (in_window today days) ps)) as Hp
        by (rewrite Ef; by left).
      apply filter_In in Hp as [Hin Hw].
      apply list_elem_of_In, list_elem_of_lookup in Hin as [i Hi].
      destruct (Forall2_lookup_r _ _ _ _ _ E Hi) as (b & _ & Hb).
      destruct (projected_not_past _ _ _ Ht Hb) as [_ H0].
      unfold in_window in Hw. apply andb_true_iff in Hw as [_ Hw%Z.leb_le].
      lia.
Qed.

Lemma get_upcoming_birthdays_dates_witness :
  let st := mkState [mkRecord (mkName (lit "Ann")) []
                       (Some (mkBirthday (mkdate 2000 12 28)))]
                    [(lit "Ann", 0%nat)] in
  valid (mkdate 2024 12 28)
  /\ get_upcoming_birthdays (mkdate 2024 12 28) 0 st = Ok [mkdate 2024 12 30]
  /\ Forall (fun r => valid r /\ weekday r < 5
                       /\ 0 <= sub_days r (mkdate 2024 12 28) <= 0 + 2)
            [mkdate 2024 12 30]
  /\ (length [mkdate 2024 12 30] <= length (stored_birthdays st))%nat
  /\ (0 < 0 -> [mkdate 2024 12 30] = []).
Proof.
  intros st.
  assert (Ht : valid (mkdate 2024 12 28))
    by (by apply StrptimeFacts.valid_b_spec).
  assert (get_upcoming_birthdays (mkdate 2024 12 28) 0 st
          = Ok [mkdate 2024 12 30]) as Hg by (vm_compute; reflexivity).
  split; [exact Ht |]. split; [exact Hg |].
  exact (get_upcoming_birthdays_dates (mkdate 2024 12 28) 0 st _ Ht Hg).
Defined.

Section Stored.

Lemma stored_birthdays_In st d :
  In d (stored_birthdays st)
  <-> exists r b, In r (values st) /\ birthday r = Some b
                  /\ birthday_value b = d.
Proof.
  unfold stored_birthdays. rewrite <- list_elem_of_In, list_elem_of_omap.
  split.
  - intros (r & Hr%list_elem_of_In & H).
    destruct (birthday r) as [b |] eqn:Hb; [| done].
    injection H as <-. by exists r, b.
  - intros (r & b & Hr & Hb & <-). exists r.
    split; [by apply list_elem_of_In | by rewrite Hb].
Qed.

Lemma values_In st r :
  In r (values st) -> exists a, heap st !! a = Some r.
Proof.
  unfold values. intros [[k a] [_ H]]%list_elem_of_In%list_elem_of_omap.
  by exists a.
Qed.

End Stored.

(** X15: on a state reached from the empty book, [get_upcoming_birthdays]
    returns a list whenever no stored birthday is 29 February and the
    current year is not the last one (9999). *)
Theorem get_upcoming_birthdays_returns ops st today days :
  run ops empty_book = Some st ->
  MINYEAR <= year today < MAXYEAR ->
  (forall r b, In r (values st) -> birthday r = Some b ->
     ~ (month (birthday_value b) = 2 /\ day (birthday_value b) = 29)) ->
  exists res, get_upcoming_birthdays today days st = Ok res.
Proof.
  intros (_ & Hf & _)%run_wf Hy Hne.
  unfold get_upcoming_birthdays. rewrite upcoming_loop_spec.
  fold (stored_birthdays st).
  destruct (mapM_res_total (projected today) (stored_birthdays st))
    as [ps ->]; [| simpl; eauto].
  intros d (r & b & Hr & Hb & <-)%stored_birthdays_In.
  apply projected_total; [done | | by eapply Hne].
  destruct (values_In _ _ Hr) as [a Ha].
  by apply (Forall_lookup_1 _ _ _ _ Hf Ha).
Qed.

Lemma get_upcoming_birthdays_returns_witness :
  let ops := [OpAddContact [lit "Ann"; lit "1234567890"];
              OpAddBirthdayCmd [lit "Ann"; lit "28.02.2000"]] in
  let st := mkState [mkRecord (mkName (lit "Ann"))
                       [mkPhone (lit "1234567890")]
                       (Some (mkBirthday (mkdate 2000 2 28)))]
                    [(lit "Ann", 0%nat)] in
  run ops empty_book = Some st
  /\ exists res, get_upcoming_birthdays (mkdate 2023 3 1) 7 st = Ok res.
Proof.
  intros ops st.
  assert (run ops empty_book = Some st) as Hrun by (vm_compute; reflexivity).
  split; [exact Hrun |].
  apply (get_upcoming_birthdays_returns ops st (mkdate 2023 3 1) 7 Hrun).
  - vm_compute. split; [discriminate | reflexivity].
  - intros r b [<- | []] [= <-]. simpl. intros [_ H]. discriminate.
Defined.



(** ** The command loop *)

Section Split.

Lemma str_split_from_tokens cur s :
  forallb (fun c => negb (isspace c)) cur = true ->
  Forall token (str_split_from cur s).
Proof.
  revert cur. induction s as [| c s IH]; intros cur Hcur; simpl.
  - destruct cur; [constructor |]. by repeat constructor.
  - destruct (isspace c) eqn:Hc.
    + destruct cur as [| c0 cur]; [by apply IH |].
      constructor; [done | by apply IH].
    + apply IH. rewrite forallb_app, Hcur. simpl. by rewrite Hc.
Qed.

Lemma str_split_from_concat cur s :
  concat (str_split_from cur s)
  = cur ++ List.filter (fun c => negb (isspace c)) s.
Proof.
  revert cur. induction s as [| c s IH]; intros cur; simpl.
  - destruct cur; simpl; by rewrite ?app_nil_r.
  - destruct (isspace c); simpl.
    + destruct cur; simpl; by rewrite IH.
    + by rewrite IH, <- app_assoc.
Qed.

Lemma str_split_nil s : str_split s = [] <-> forallb isspace s = true.
Proof.
  unfold str_split. split.
  - intros H. pose proof (str_split_from_concat [] s) as Hc.
    rewrite H in Hc. simpl in Hc.
    apply forallb_forall. intros c Hin.
    destruct (isspace c) eqn:E; [done |].
    assert (In c (List.filter (fun c => negb (isspace c)) s)) as Hf
      by (apply filter_In; by rewrite E).
    by rewrite <- Hc in Hf.
  - induction s as [| c s IH]; simpl; [done |].
    intros [-> H]%andb_true_iff. by apply IH.
Qed.

Lemma str_lstrip_token t : token t -> str_lstrip t = t.
Proof.
  intros [Hne H]. destruct t as [| c t]; [done |]. simpl in *.
  apply andb_true_iff in H as [Hc _]. by destruct (isspace c).
Qed.

Lemma token_rev t : token t -> token (rev t).
Proof.
  intros [Hne H]. split.
  - intros E. apply Hne. by rewrite <- (rev_involutive t), E.
  - by rewrite StrptimeFacts.forallb_rev.
Qed.

Lemma str_strip_token t : token t -> str_strip t = t.
Proof.
  intros Ht. unfold str_strip. rewrite (str_lstrip_token t Ht).
  rewrite (str_lstrip_token _ (token_rev t Ht)). apply rev_involutive.
Qed.

End Split.

(** X17: [parse_input] splits the line at white space: the command is the
    first word (lowered; the [strip] changes nothing) and the arguments are
    the other words, each not empty and without white space, which together
    are the characters of the line that are no white space. A line without
    a word makes the unpacking raise [ValueError]. *)
Theorem parse_input_spec lower user_input :
  match parse_input lower user_input with
  | Ok (command, args) =>
      exists word,
        str_split user_input = word :: args /\ command = lower word
        /\ Forall token (word :: args)
        /\ concat (word :: args)
           = List.filter (fun c => negb (isspace c)) user_input
  | Raise e =>
      forallb isspace user_input = true
      /\ e = ValueError (lit
           "not enough values to unpack (expected at least 1, got 0)")
  end.
Proof.
  unfold parse_input.
  pose proof (str_split_from_tokens [] user_input eq_refl) as Htok.
  pose proof (str_split_from_concat [] user_input) as Hcat.
  fold (str_split user_input) in Htok, Hcat.
  destruct (str_split user_input) as [| word args] eqn:E.
  - split; [by apply str_split_nil | reflexivity].
  - exists word. split; [done |]. split; [| done].
    by rewrite (str_strip_token word (Forall_inv Htok)).
Qed.

(** X18: an empty line, or one of white space only, ends the program: the
    [ValueError] of [parse_input] is raised outside every handler, no
    "Good bye!" is printed and the book is not saved. *)
Theorem blank_line_ends_the_program lower today user_input book :
  forallb isspace user_input = true ->
  main_turn lower today user_input book
  = Some (Crash (ValueError (lit
      "not enough values to unpack (expected at least 1, got 0)"))).
Proof.
  intros H%str_split_nil. unfold main_turn, parse_input. by rewrite H.
Qed.

Lemma blank_line_ends_the_program_witness :
  main_turn ascii_lower (mkdate 2024 1 1) [] empty_book
  = Some (Crash (ValueError (lit
      "not enough values to unpack (expected at least 1, got 0)"))).
Proof.
  apply (blank_line_ends_the_program ascii_lower (mkdate 2024 1 1) []
           empty_book).
  reflexivity.
Defined.

Section Turn.

Lemma run_app ops1 ops2 st :
  run (ops1 ++ ops2) st = st' ← run ops1 st; run ops2 st'.
Proof.
  revert st. induction ops1 as [| o ops1 IH]; intros st; simpl; [done |].
  destruct (step o st); simpl; [apply IH | done].
Qed.

Lemma run_snoc ops o st st' st'' :
  run ops st = Some st' -> step o st' = Some st'' ->
  run (ops ++ [o]) st = Some st''.
Proof. intros H1 H2. rewrite run_app, H1. simpl. by rewrite H2. Qed.

Lemma printable_printed v st : printable v st -> is_Some (printed v st).
Proof.
  destruct v; simpl; [done | | done]. intros [r ->]. by eexists.
Qed.

Lemma returning_Ok {A} v (o : option (State * res A)) st' w :
  returning v <$> o = Some (st', Ok w) -> w = v.
Proof.
  destruct o as [[st1 [x | e]] |]; simpl; [| done | done].
  by intros [= _ <-].
Qed.

(** The turn of a handler whose body raises nothing but [ValueError] and
    returns what can be printed. *)
Lemma print_result_turn body st :
  (forall st' e, body st = Some (st', Raise e) -> is_ValueError e) ->
  (forall st' v, body st = Some (st', Ok v) -> printable v st') ->
  is_Some (input_error body st) ->
  exists out st',
    print_result (input_error body st) = Some (Continue out st')
    /\ fst <$> input_error body st = Some st'.
Proof.
  intros Hr Hp [x Hx]. unfold input_error in *.
  destruct (body st) as [[st' [v | e]] |] eqn:Hb; [| | done].
  - destruct (printable_printed v st' (Hp _ _ eq_refl)) as [s Hs].
    exists s, st'. simpl. by rewrite Hs.
  - destruct (Hr _ _ eq_refl) as [msg ->]. exists msg, st'. done.
Qed.

Lemma add_contact_body_value args st st' v :
  add_contact_body args st = Some (st', Ok v) -> printable v st'.
Proof.
  unfold add_contact_body. intros H.
  destruct args as [| nm [| ph rest]]; try done.
  destruct (find nm st); simpl in H.
  - destruct ph; [by injection H as _ <- |].
    by rewrite (returning_Ok _ _ _ _ H).
  - destruct (add_record _ _); [| done]. simpl in H.
    destruct ph; [by injection H as _ <- |].
    by rewrite (returning_Ok _ _ _ _ H).
Qed.

Lemma change_contact_body_value args st st' v :
  change_contact_body args st = Some (st', Ok v) -> printable v st'.
Proof.
  unfold change_contact_body. intros H.
  destruct args as [| nm [| o [| n [| ? ?]]]]; try done.
  destruct (find nm st); [| by injection H as _ <-].
  by rewrite (returning_Ok _ _ _ _ H).
Qed.

Lemma add_birthday_body_value args st st' v :
  add_birthday_body args st = Some (st', Ok v) -> printable v st'.
Proof.
  unfold add_birthday_body. intros H.
  destruct args as [| nm [| s [| ? ?]]]; try done.
  destruct (find nm st); [| by injection H as _ <-].
  by rewrite (returning_Ok _ _ _ _ H).
Qed.

Lemma phone_body_value args st st' v :
  name_is_key st ->
  phone_body args st = Some (st', Ok v) -> printable v st' /\ st' = st.
Proof.
  unfold phone_body. intros Hn H.
  destruct args as [| nm [| ? ?]]; try done.
  destruct (find nm st) as [a |] eqn:Hf; injection H as <- <-; [| done].
  destruct (find_object _ _ _ Hn Hf) as (r & Hr & _).
  split; [by exists r | done].
Qed.

Lemma show_birthday_body_value args st st' v :
  show_birthday_body args st = Some (st', Ok v) -> printable v st' /\ st' = st.
Proof.
  unfold show_birthday_body. intros H.
  destruct args as [| nm [| ? ?]]; try done.
  destruct (find nm st) as [a |]; [| by injection H as <- <-].
  destruct (heap st !! a) as [r |]; [| done]. simpl in H.
  destruct (birthday r); by injection H as <- <-.
Qed.

Lemma input_error_same body st st1 :
  (forall st' out, body st = Some (st', out) -> st' = st) ->
  fst <$> input_error body st = Some st1 -> st1 = st.
Proof.
  intros Hs H. unfold input_error in H.
  destruct (body st) as [[st' [v | e]] |] eqn:Hb; [| | done].
  - injection H as <-. by eapply Hs.
  - pose proof (Hs _ _ eq_refl) as ->. by destruct e; injection H as <-.
Qed.

End Turn.

(** X19: on a state reached from the empty book, a line with at least one
    word never ends the program by an exception: the turn either ends the
    session and saves the book as it is, or prints a text and goes on with a
    book that is again a state reached from the empty book. *)
Theorem main_turn_goes_on lower today user_input ops book :
  run ops empty_book = Some book ->
  forallb isspace user_input = false ->
  (exists out,
     main_turn lower today user_input book = Some (Exit out book))
  \/ (exists out book' ops',
        main_turn lower today user_input book = Some (Continue out book')
        /\ run ops' empty_book = Some book').
Proof.
  intros Hrun Hsp. unfold main_turn, parse_input.
  destruct (str_split user_input) as [| word args] eqn:E.
  { apply str_split_nil in E. congruence. }
  set (command := lower (str_strip word)).
  pose proof (run_wf _ _ Hrun) as (Hn & _ & _).
  destruct (reachable_wf ops book args Hrun) as (H1 & H2 & H3 & H4 & H5).
  assert (forall body out st',
            print_result (input_error body book) = Some (Continue out st')
            /\ fst <$> input_error body book = Some st' ->
            forall o, step o book = fst <$> input_error body book ->
            exists out book' ops',
              print_result (input_error body book)
              = Some (Continue out book')
              /\ run ops' empty_book = Some book') as Hstep.
  { intros body out st' [Hp Hs] o Ho. exists out, st', (ops ++ [o]).
    split; [done |]. eapply run_snoc; [done |]. by rewrite Ho. }
  assert (forall body out st',
            print_result (input_error body book) = Some (Continue out st')
            /\ fst <$> input_error body book = Some st' ->
            (forall st1 o1, body book = Some (st1, o1) -> st1 = book) ->
            exists out book' ops',
              print_result (input_error body book)
              = Some (Continue out book')
              /\ run ops' empty_book = Some book') as Hsame.
  { intros body out st' [Hp Hs] Hb. exists out, st', ops.
    split; [done |]. by rewrite (input_error_same body book st' Hb Hs). }
  destruct (pystr_eqb command (lit "close") || pystr_eqb command (lit "exit"));
    [left; eauto |].
  right.
  destruct (pystr_eqb command (lit "hello")); [by eauto |].
  destruct (pystr_eqb command (lit "add")).
  { destruct (print_result_turn (add_contact_body args) book) as (out & st' & H);
      [apply add_contact_body_raises | apply add_contact_body_value | done |].
    by apply (Hstep _ _ _ H (OpAddContact args)). }
  destruct (pystr_eqb command (lit "change")).
  { destruct (print_result_turn (change_contact_body args) book)
      as (out & st' & H);
      [apply change_contact_body_raises | apply change_contact_body_value
      | done |].
    by apply (Hstep _ _ _ H (OpChangeContact args)). }
  destruct (pystr_eqb command (lit "phone")).
  { destruct (print_result_turn (phone_body args) book) as (out & st' & H);
      [apply phone_body_raises
      | intros ? ? Hb; by apply (phone_body_value args book)
      | done |].
    apply (Hsame _ _ _ H). intros st1 [v | e] Hb.
    - by apply (phone_body_value args book st1 v Hn).
    - unfold phone_body in Hb. destruct args as [| nm [| ? ?]];
        try by injection Hb as <- _.
      by destruct (find nm book). }
  destruct (pystr_eqb command (lit "all")).
  { exists (AddressBook_str book), book, ops. done. }
  destruct (pystr_eqb command (lit "add-birthday")).
  { destruct (print_result_turn (add_birthday_body args) book)
      as (out & st' & H);
      [apply add_birthday_body_raises | apply add_birthday_body_value
      | done |].
    by apply (Hstep _ _ _ H (OpAddBirthdayCmd args)). }
  destruct (pystr_eqb command (lit "show-birthday")).
  { destruct (print_result_turn (show_birthday_body args) book)
      as (out & st' & H);
      [apply show_birthday_body_raises
      | intros ? ? Hb; by apply (show_birthday_body_value args book)
      | done |].
    apply (Hsame _ _ _ H). intros st1 [v | e] Hb.
    - by apply (show_birthday_body_value args book st1 v).
    - unfold show_birthday_body in Hb. destruct args as [| nm [| ? ?]];
        try by injection Hb as <- _.
      destruct (find nm book) as [a |]; [| done].
      destruct (heap book !! a) as [r |]; [| done]. simpl in Hb.
      by destruct (birthday r). }
  destruct (pystr_eqb command (lit "birthdays")); [| by eauto].
  unfold birthdays, input_error.
  destruct (get_upcoming_birthdays today 7 book) as [[| d l] | e] eqn:Eu;
    simpl; [by eauto | by eauto |].
  destruct (get_upcoming_birthdays_raises _ _ _ _ Eu) as [msg ->].
  simpl. eauto.
Qed.

Lemma main_turn_goes_on_witness :
  let book := mkState [mkRecord (mkName (lit "Ann"))
                         [mkPhone (lit "1234567890")] None]
                      [(lit "Ann", 0%nat)] in
  run [OpAddContact [lit "Ann"; lit "1234567890"]] empty_book = Some book
  /\ ((exists out,
         main_turn ascii_lower (mkdate 2024 1 1) (lit "Phone Ann") book
         = Some (Exit out book))
      \/ (exists out book' ops',
            main_turn ascii_lower (mkdate 2024 1 1) (lit "Phone Ann") book
            = Some (Continue out book')
            /\ run ops' empty_book = Some book')).
Proof.
  intros book.
  assert (run [OpAddContact [lit "Ann"; lit "1234567890"]] empty_book
          = Some book) as Hrun by (vm_compute; reflexivity).
  split; [exact Hrun |].
  apply (main_turn_goes_on ascii_lower (mkdate 2024 1 1) (lit "Phone Ann")
           _ book Hrun).
  reflexivity.
Defined.
